(** * The pathfinding state manager (indra/newview/llpathfindingmanager.cpp)

    A shallow embedding of [LLPathfindingManager] and of the responders that
    live in the same translation unit: the agent-state machine, the navmesh
    request path with its version counter, and the [LinksetsResponder] that
    joins the object and terrain linkset replies into one callback.

    Conventions.
    - A member function that mutates the manager is a computation in the
      monad [M]: it takes the manager, returns a value and the new manager and
      emits the calls it made to the outside (HTTP requests handed to
      [LLHTTPClient], signals fired at listeners) as a list of [Effect]s.
    - [gAgent] is global mutable state of the viewer; every function that
      reads it takes the agent as it is at the time of the call.
    - [U32] is [Z] with the wrap-around written out ([U32_incr]).
    - [llassert] and [llwarns] have no effect on the release control flow
      and are left out; a null [shared_ptr] that the code would dereference
      makes the embedded function return [None].
    - Classes of the viewer that this file only uses through their interface
      ([LLSD], [LLPathfindingLinkset], [LLPathfindingLinksetList]) are the
      fields of the class [Collaborators]. *)

From Stdlib Require Import ZArith Bool Lia.
From stdpp Require Import base option list gmap strings.

Open Scope Z_scope.

(** ** Capability names and wire fields (the #defines at the top of the file) *)

Definition CAP_SERVICE_RETRIEVE_NAVMESH : string := "RetrieveNavMeshSrc".
Definition CAP_SERVICE_AGENT_STATE : string := "AgentPreferences".
Definition ALTER_NAVMESH_OBJECTS_FIELD : string := "alter_navmesh_objects".
Definition DEPRECATED_ALTER_NAVMESH_OBJECTS_FIELD : string := "alter_permanent_objects".
Definition CAP_SERVICE_OBJECT_LINKSETS : string := "ObjectNavMeshProperties".
Definition CAP_SERVICE_TERRAIN_LINKSETS : string := "TerrainNavMeshProperties".

(** [std::string::empty]. *)
Definition string_empty (s : string) : bool :=
  match s with
  | EmptyString => true
  | String _ _ => false
  end.

(** ** Machine integers *)

Definition U32_modulus : Z := 2 ^ 32.
Definition U32_max : Z := U32_modulus - 1.

(** Pre-increment of a [U32]: [++x]. *)
Definition U32_incr (x : Z) : Z := (x + 1) mod U32_modulus.

(** ** Identifiers and enumerations *)

(** [LLUUID]: a 128-bit value, the default-constructed one is null. *)
Definition LLUUID : Type := N.
Definition LLUUID_null : LLUUID := 0%N.

(** [LLPathfindingManager::EAgentState]. *)
Inductive EAgentState : Type :=
| kAgentStateUnknown
| kAgentStateFrozen
| kAgentStateUnfrozen
| kAgentStateNotEnabled
| kAgentStateError.

#[global] Instance EAgentState_eq_dec : EqDecision EAgentState.
Proof. solve_decision. Defined.

(** [LLPathfindingManager::ELinksetsRequestStatus]. *)
Inductive ELinksetsRequestStatus : Type :=
| kLinksetsRequestStarted
| kLinksetsRequestCompleted
| kLinksetsRequestNotEnabled
| kLinksetsRequestError.

#[global] Instance ELinksetsRequestStatus_eq_dec : EqDecision ELinksetsRequestStatus.
Proof. solve_decision. Defined.

(** [LinksetsResponder::EMessagingState]. *)
Inductive EMessagingState : Type :=
| kNotRequested
| kWaiting
| kReceivedGood
| kReceivedError.

#[global] Instance EMessagingState_eq_dec : EqDecision EMessagingState.
Proof. solve_decision. Defined.

(** Callbacks ([boost::function] values) are opaque to the manager: it stores
    them and calls them. They are identified by a number, and a call is an
    [Effect]. *)
Definition agent_state_callback_t : Type := nat.
Definition navmesh_callback_t : Type := nat.
Definition linksets_callback_t : Type := nat.

(** ** The viewer classes used through their interface *)

Class Collaborators : Type := {
  (** llsd.h *)
  LLSD : Type;
  (** [LLSD x;] *)
  LLSD_new : LLSD;
  isUndefined : LLSD -> bool;
  has : LLSD -> string -> bool;
  (** [x.get(f).asBoolean()] *)
  get_asBoolean : LLSD -> string -> bool;
  (** [x[f] = b] *)
  set_boolean : LLSD -> string -> bool -> LLSD;
  (** llpathfindinglinkset.h *)
  LLPathfindingLinkset : Type;
  ELinksetUse : Type;
  (** [new LLPathfindingLinkset(pContent)], the terrain constructor *)
  Linkset_of_LLSD : LLSD -> LLPathfindingLinkset;
  (** [p->getUUID().asString()] *)
  getUUID_asString : LLPathfindingLinkset -> string;
  (** llpathfindinglinksetlist.h *)
  LLPathfindingLinksetList : Type;
  (** [new LLPathfindingLinksetList()] *)
  LinksetList_new : LLPathfindingLinksetList;
  (** [new LLPathfindingLinksetList(pContent)] *)
  LinksetList_of_LLSD : LLSD -> LLPathfindingLinksetList;
  (** [l->insert(std::pair<std::string, LLPathfindingLinksetPtr>(k, v))] *)
  LinksetList_insert :
    string -> LLPathfindingLinkset -> LLPathfindingLinksetList -> LLPathfindingLinksetList;
  encodeObjectFields : LLPathfindingLinksetList -> ELinksetUse -> Z -> Z -> Z -> Z -> LLSD;
  encodeTerrainFields : LLPathfindingLinksetList -> ELinksetUse -> Z -> Z -> Z -> Z -> LLSD
}.

(** [LLViewerRegion], as far as the manager looks at it. *)
Record LLViewerRegion : Type := {
  getRegionID : LLUUID;
  getCapability : string -> string;
  canManageEstate : bool
}.

(** [gAgent]. [getRegion] is [None] for a null region pointer. *)
Record LLAgent : Type := {
  getRegion : option LLViewerRegion;
  isGodlike : bool
}.

Section Model.
Context `{C : Collaborators}.

(** ** The navmesh cache entry (llpathfindingnavmesh.cpp) *)

(** Modelled from the spec: the lifecycle states of a cache entry, spec 4.1
    ("NoData, RequestStarted, RequestCompleted plus terminal side-branches
    NotEnabled and Error"); llpathfindingnavmesh.h is not among the sources. *)
Inductive ENavMeshRequestStatus : Type :=
| kNavMeshRequestNoData
| kNavMeshRequestStarted
| kNavMeshRequestCompleted
| kNavMeshRequestNotEnabled
| kNavMeshRequestError.

(** Modelled from the spec: a cache entry "holds RegionId, current lifecycle
    state, last known version, set of registered listeners" (spec 3), and
    the payload stored by a successful retrieval (spec 4.1);
    [LLPathfindingNavMesh] itself is not among the sources. *)
Record LLPathfindingNavMesh : Type := {
  mRegionUUID : LLUUID;
  mNavMeshRequestStatus : ENavMeshRequestStatus;
  mNavMeshVersion : Z;
  mNavMeshData : option LLSD;
  mNavMeshSignal : list navmesh_callback_t
}.

(** ** What the manager does to the outside *)

(** The responders handed to [LLHTTPClient]; a shared pointer is an [option],
    [None] when null. A [NavMeshResponder] keeps the
    pointer to its cache entry; entries are never removed from the map, so
    the pointer is the entry's key. The two linkset responders keep the
    pointer to the one [LinksetsResponder] built by the same request. *)
Inductive Responder : Type :=
| NavMeshResponder (pCapabilityURL : string) (pNavMeshVersion : Z) (pNavMeshPtr : LLUUID)
| AgentStateResponder (pCapabilityURL : string) (pRequestedAgentState : EAgentState)
| ObjectLinksetsResponder (pCapabilityURL : string)
| TerrainLinksetsResponder (pCapabilityURL : string).

Inductive Effect : Type :=
| HTTPClient_get (url : string) (responder : Responder)
| HTTPClient_post (url : string) (body : LLSD) (responder : Responder)
| HTTPClient_put (url : string) (body : LLSD) (responder : Responder)
| AgentStateSignal (slots : list agent_state_callback_t) (state : EAgentState)
| NavMeshSignal (slots : list navmesh_callback_t) (status : ENavMeshRequestStatus)
    (region : LLUUID) (data : option LLSD)
| LinksetsCallback (callback : linksets_callback_t) (status : ELinksetsRequestStatus)
    (linksets : option LLPathfindingLinksetList).

Definition is_http (e : Effect) : bool :=
  match e with
  | HTTPClient_get _ _ | HTTPClient_post _ _ _ | HTTPClient_put _ _ _ => true
  | _ => false
  end.

Definition is_http_post (e : Effect) : bool :=
  match e with
  | HTTPClient_post _ _ _ => true
  | _ => false
  end.

Definition is_http_get (e : Effect) : bool :=
  match e with
  | HTTPClient_get _ _ => true
  | _ => false
  end.

(** Modelled from the spec: a new entry has no data (state NoData), and no
    listener yet. *)
Definition NavMesh_new (pRegionUUID : LLUUID) : LLPathfindingNavMesh :=
  {| mRegionUUID := pRegionUUID;
     mNavMeshRequestStatus := kNavMeshRequestNoData;
     mNavMeshVersion := 0;
     mNavMeshData := None;
     mNavMeshSignal := [] |}.

Definition NavMesh_notify (e : LLPathfindingNavMesh) : list Effect :=
  [NavMeshSignal (mNavMeshSignal e) (mNavMeshRequestStatus e) (mRegionUUID e) (mNavMeshData e)].

(** Modelled from the spec: "a cache entry's has-current-data predicate
    holds only when its stored version equals the latest known version"
    (spec 3): the entry holds retrieved data and the version it stored with
    the data is the one asked for. *)
Definition hasNavMeshVersion (e : LLPathfindingNavMesh) (pNavMeshVersion : Z) : bool :=
  match mNavMeshRequestStatus e with
  | kNavMeshRequestCompleted => mNavMeshVersion e =? pNavMeshVersion
  | _ => false
  end.

(** Modelled from the spec: "re-announce current data to listeners without a
    network call" (spec 4.1). *)
Definition handleRefresh (e : LLPathfindingNavMesh) : LLPathfindingNavMesh * list Effect :=
  (e, NavMesh_notify e).

(** Modelled from the spec: "enter RequestStarted, record requested version,
    notify listeners" (spec 4.1). *)
Definition handleNavMeshStart (pNavMeshVersion : Z) (e : LLPathfindingNavMesh)
  : LLPathfindingNavMesh * list Effect :=
  let e' := {| mRegionUUID := mRegionUUID e;
               mNavMeshRequestStatus := kNavMeshRequestStarted;
               mNavMeshVersion := pNavMeshVersion;
               mNavMeshData := mNavMeshData e;
               mNavMeshSignal := mNavMeshSignal e |} in
  (e', NavMesh_notify e').

(** Modelled from the spec: "on success, store payload + version, transition
    to RequestCompleted, notify listeners with data" (spec 4.1). *)
Definition handleNavMeshResult (pContent : LLSD) (pNavMeshVersion : Z) (e : LLPathfindingNavMesh)
  : LLPathfindingNavMesh * list Effect :=
  let e' := {| mRegionUUID := mRegionUUID e;
               mNavMeshRequestStatus := kNavMeshRequestCompleted;
               mNavMeshVersion := pNavMeshVersion;
               mNavMeshData := Some pContent;
               mNavMeshSignal := mNavMeshSignal e |} in
  (e', NavMesh_notify e').

(** Modelled from the spec: "transition to Error, notify listeners"
    (spec 4.1). *)
Definition handleNavMeshError (e : LLPathfindingNavMesh) : LLPathfindingNavMesh * list Effect :=
  let e' := {| mRegionUUID := mRegionUUID e;
               mNavMeshRequestStatus := kNavMeshRequestError;
               mNavMeshVersion := mNavMeshVersion e;
               mNavMeshData := mNavMeshData e;
               mNavMeshSignal := mNavMeshSignal e |} in
  (e', NavMesh_notify e').

(** Modelled from the spec: "transition to NotEnabled when the region has no
    retrieval capability" (spec 4.1). *)
Definition handleNavMeshNotEnabled (e : LLPathfindingNavMesh) : LLPathfindingNavMesh * list Effect :=
  let e' := {| mRegionUUID := mRegionUUID e;
               mNavMeshRequestStatus := kNavMeshRequestNotEnabled;
               mNavMeshVersion := mNavMeshVersion e;
               mNavMeshData := mNavMeshData e;
               mNavMeshSignal := mNavMeshSignal e |} in
  (e', NavMesh_notify e').

(** Modelled from the spec: the new-version signal "implicitly invalidates
    every cache entry's is-current check; does not itself trigger a refetch"
    (spec 4.1): the entry keeps its data and the version stored with it, the
    invalidation comes from the manager's counter moving on. *)
Definition handleNavMeshNewVersion (pNavMeshVersion : Z) (e : LLPathfindingNavMesh)
  : LLPathfindingNavMesh * list Effect :=
  (e, []).

(** Modelled from the spec: "registerNavMeshListener(callback) ->
    subscriptionHandle (supports multiple independent listeners)". *)
Definition registerNavMeshListener (cb : navmesh_callback_t) (e : LLPathfindingNavMesh)
  : LLPathfindingNavMesh * list Effect :=
  ({| mRegionUUID := mRegionUUID e;
      mNavMeshRequestStatus := mNavMeshRequestStatus e;
      mNavMeshVersion := mNavMeshVersion e;
      mNavMeshData := mNavMeshData e;
      mNavMeshSignal := mNavMeshSignal e ++ [cb] |}, []).

(** ** LLPathfindingManager *)

Record LLPathfindingManager : Type := {
  mNavMeshMap : gmap LLUUID LLPathfindingNavMesh;
  mNavMeshVersionXXX : Z;
  mAgentStateSignal : list agent_state_callback_t;
  mAgentState : EAgentState;
  mLastKnownNonErrorAgentState : EAgentState
}.

(** The constructor. *)
Definition LLPathfindingManager_new : LLPathfindingManager :=
  {| mNavMeshMap := ∅;
     mNavMeshVersionXXX := 0;
     mAgentStateSignal := [];
     mAgentState := kAgentStateUnknown;
     mLastKnownNonErrorAgentState := kAgentStateUnknown |}.

(** Member functions: state passing with the emitted effects. *)
Definition M (A : Type) : Type := LLPathfindingManager -> A * LLPathfindingManager * list Effect.

Definition ret {A : Type} (a : A) : M A := fun m => (a, m, []).

Definition bind {A B : Type} (x : M A) (f : A -> M B) : M B :=
  fun m =>
    let '(a, m1, e1) := x m in
    let '(b, m2, e2) := f a m1 in
    (b, m2, e1 ++ e2).

Definition gets {A : Type} (f : LLPathfindingManager -> A) : M A := fun m => (f m, m, []).

Definition modify (f : LLPathfindingManager -> LLPathfindingManager) : M unit :=
  fun m => (tt, f m, []).

Definition emit (e : Effect) : M unit := fun m => (tt, m, [e]).

End Model.

Declare Scope manager_scope.
Delimit Scope manager_scope with M.
Notation "x <- c1 ;; c2" := (bind c1 (fun x => c2))
  (at level 100, c1 at next level, right associativity) : manager_scope.
Notation "c1 ;;; c2" := (bind c1 (fun _ => c2))
  (at level 100, right associativity) : manager_scope.

Section Manager.
Context `{C : Collaborators}.
Local Open Scope manager_scope.

Definition set_mNavMeshMap (v : gmap LLUUID LLPathfindingNavMesh) (m : LLPathfindingManager)
  : LLPathfindingManager :=
  {| mNavMeshMap := v;
     mNavMeshVersionXXX := mNavMeshVersionXXX m;
     mAgentStateSignal := mAgentStateSignal m;
     mAgentState := mAgentState m;
     mLastKnownNonErrorAgentState := mLastKnownNonErrorAgentState m |}.

Definition set_mNavMeshVersionXXX (v : Z) (m : LLPathfindingManager) : LLPathfindingManager :=
  {| mNavMeshMap := mNavMeshMap m;
     mNavMeshVersionXXX := v;
     mAgentStateSignal := mAgentStateSignal m;
     mAgentState := mAgentState m;
     mLastKnownNonErrorAgentState := mLastKnownNonErrorAgentState m |}.

Definition set_mAgentStateSignal (v : list agent_state_callback_t) (m : LLPathfindingManager)
  : LLPathfindingManager :=
  {| mNavMeshMap := mNavMeshMap m;
     mNavMeshVersionXXX := mNavMeshVersionXXX m;
     mAgentStateSignal := v;
     mAgentState := mAgentState m;
     mLastKnownNonErrorAgentState := mLastKnownNonErrorAgentState m |}.

Definition set_mAgentState (v : EAgentState) (m : LLPathfindingManager) : LLPathfindingManager :=
  {| mNavMeshMap := mNavMeshMap m;
     mNavMeshVersionXXX := mNavMeshVersionXXX m;
     mAgentStateSignal := mAgentStateSignal m;
     mAgentState := v;
     mLastKnownNonErrorAgentState := mLastKnownNonErrorAgentState m |}.

Definition set_mLastKnownNonErrorAgentState (v : EAgentState) (m : LLPathfindingManager)
  : LLPathfindingManager :=
  {| mNavMeshMap := mNavMeshMap m;
     mNavMeshVersionXXX := mNavMeshVersionXXX m;
     mAgentStateSignal := mAgentStateSignal m;
     mAgentState := mAgentState m;
     mLastKnownNonErrorAgentState := v |}.

(** *** Capability lookup *)

Definition getCurrentRegion (gAgent : LLAgent) : option LLViewerRegion := getRegion gAgent.

Definition getCapabilityURLForRegion (pRegion : option LLViewerRegion) (pCapabilityName : string)
  : string :=
  match pRegion with
  | Some region => getCapability region pCapabilityName
  | None => ""
  end.

Definition getCapabilityURLForCurrentRegion (gAgent : LLAgent) (pCapabilityName : string) : string :=
  getCapabilityURLForRegion (getCurrentRegion gAgent) pCapabilityName.

Definition getRetrieveNavMeshURLForCurrentRegion (gAgent : LLAgent) : string :=
  getCapabilityURLForCurrentRegion gAgent CAP_SERVICE_RETRIEVE_NAVMESH.

Definition getRetrieveNavMeshURLForRegion (pRegion : option LLViewerRegion) : string :=
  getCapabilityURLForRegion pRegion CAP_SERVICE_RETRIEVE_NAVMESH.

Definition getAgentStateURLForCurrentRegion (gAgent : LLAgent) : string :=
  getCapabilityURLForCurrentRegion gAgent CAP_SERVICE_AGENT_STATE.

Definition getObjectLinksetsURLForCurrentRegion (gAgent : LLAgent) : string :=
  getCapabilityURLForCurrentRegion gAgent CAP_SERVICE_OBJECT_LINKSETS.

Definition getTerrainLinksetsURLForCurrentRegion (gAgent : LLAgent) : string :=
  getCapabilityURLForCurrentRegion gAgent CAP_SERVICE_TERRAIN_LINKSETS.

Definition isPathfindingEnabledForCurrentRegion (gAgent : LLAgent) : bool :=
  negb (string_empty (getRetrieveNavMeshURLForCurrentRegion gAgent)).

Definition isAllowViewTerrainProperties (gAgent : LLAgent) : bool :=
  isGodlike gAgent ||
  match getCurrentRegion gAgent with
  | Some region => canManageEstate region
  | None => false
  end.

(** *** The agent state *)

Definition isValidAgentState (pAgentState : EAgentState) : bool :=
  bool_decide (pAgentState = kAgentStateFrozen) || bool_decide (pAgentState = kAgentStateUnfrozen).

Definition setAgentState (pAgentState : EAgentState) : M unit :=
  modify (set_mAgentState pAgentState) ;;;
  s <- gets mAgentState ;;
  (if bool_decide (s <> kAgentStateError)
   then modify (set_mLastKnownNonErrorAgentState s)
   else ret tt) ;;;
  slots <- gets mAgentStateSignal ;;
  s' <- gets mAgentState ;;
  emit (AgentStateSignal slots s').

Definition requestGetAgentState (gAgent : LLAgent) : M unit :=
  let agentStateURL := getAgentStateURLForCurrentRegion gAgent in
  if string_empty agentStateURL
  then setAgentState kAgentStateNotEnabled
  else emit (HTTPClient_get agentStateURL (AgentStateResponder agentStateURL kAgentStateUnknown)).

Definition getAgentState (gAgent : LLAgent) : M EAgentState :=
  (if negb (isPathfindingEnabledForCurrentRegion gAgent)
   then setAgentState kAgentStateNotEnabled
   else
     s <- gets mAgentState ;;
     if negb (isValidAgentState s) then requestGetAgentState gAgent else ret tt) ;;;
  gets mAgentState.

Definition getLastKnownNonErrorAgentState : M EAgentState :=
  gets mLastKnownNonErrorAgentState.

Definition isAllowAlterPermanent (gAgent : LLAgent) : M bool :=
  if negb (isPathfindingEnabledForCurrentRegion gAgent)
  then ret true
  else
    s <- getAgentState gAgent ;;
    ret (bool_decide (s = kAgentStateUnfrozen)).

Definition registerAgentStateListener (pAgentStateCallback : agent_state_callback_t) : M unit :=
  slots <- gets mAgentStateSignal ;;
  modify (set_mAgentStateSignal (slots ++ [pAgentStateCallback])).

Definition requestSetAgentState (gAgent : LLAgent) (pRequestedAgentState : EAgentState) : M unit :=
  let agentStateURL := getAgentStateURLForCurrentRegion gAgent in
  if string_empty agentStateURL
  then setAgentState kAgentStateNotEnabled
  else
    let unfrozen := bool_decide (pRequestedAgentState = kAgentStateUnfrozen) in
    let request := set_boolean LLSD_new ALTER_NAVMESH_OBJECTS_FIELD unfrozen in
    let request := set_boolean request DEPRECATED_ALTER_NAVMESH_OBJECTS_FIELD unfrozen in
    emit (HTTPClient_post agentStateURL request
            (AgentStateResponder agentStateURL pRequestedAgentState)).

(** The state a reply decodes to (DEPRECATED_ALTER_NAVMESH_OBJECTS_FIELD is
    defined, so the second branch of the #ifndef is the compiled one). *)
Definition decodeAgentState (pContent : LLSD) : EAgentState :=
  if has pContent ALTER_NAVMESH_OBJECTS_FIELD
  then (if get_asBoolean pContent ALTER_NAVMESH_OBJECTS_FIELD
        then kAgentStateUnfrozen else kAgentStateFrozen)
  else (if get_asBoolean pContent DEPRECATED_ALTER_NAVMESH_OBJECTS_FIELD
        then kAgentStateUnfrozen else kAgentStateFrozen).

Definition handleAgentStateResult (pContent : LLSD) (pRequestedAgentState : EAgentState) : M unit :=
  let agentState := decodeAgentState pContent in
  let agentState :=
    if isValidAgentState pRequestedAgentState && bool_decide (agentState <> pRequestedAgentState)
    then kAgentStateError
    else agentState in
  setAgentState agentState.

Definition handleAgentStateError (pStatus : Z) (pReason pURL : string) : M unit :=
  setAgentState kAgentStateError.

(** *** The navmesh cache *)

Definition getNavMeshForRegionUUID (pRegionUUID : LLUUID) : M LLUUID :=
  navMeshMap <- gets mNavMeshMap ;;
  match navMeshMap !! pRegionUUID with
  | None =>
      modify (set_mNavMeshMap (<[pRegionUUID := NavMesh_new pRegionUUID]> navMeshMap)) ;;;
      ret pRegionUUID
  | Some _ => ret pRegionUUID
  end.

Definition regionUUID_of (pRegion : option LLViewerRegion) : LLUUID :=
  match pRegion with
  | Some region => getRegionID region
  | None => LLUUID_null
  end.

Definition getNavMeshForRegion (pRegion : option LLViewerRegion) : M LLUUID :=
  getNavMeshForRegionUUID (regionUUID_of pRegion).

(** The entry [getNavMeshForRegion] hands out for a key: the one in the map,
    or the new one it puts there. *)
Definition entry_of (m : LLPathfindingManager) (k : LLUUID) : LLPathfindingNavMesh :=
  default (NavMesh_new k) (mNavMeshMap m !! k).

(** [navMeshPtr->f(...)] for a member function that reads the entry. *)
Definition NavMesh_read {A : Type} (navMeshPtr : LLUUID) (f : LLPathfindingNavMesh -> A) : M A :=
  navMeshMap <- gets mNavMeshMap ;;
  ret (f (default (NavMesh_new navMeshPtr) (navMeshMap !! navMeshPtr))).

(** [navMeshPtr->f(...)] for a member function that changes the entry. *)
Definition NavMesh_call (navMeshPtr : LLUUID)
    (f : LLPathfindingNavMesh -> LLPathfindingNavMesh * list Effect) : M unit :=
  fun m =>
    let '(e, out) := f (default (NavMesh_new navMeshPtr) (mNavMeshMap m !! navMeshPtr)) in
    (tt, set_mNavMeshMap (<[navMeshPtr := e]> (mNavMeshMap m)) m, out).

Definition registerNavMeshListenerForRegion (pRegion : option LLViewerRegion)
    (pNavMeshCallback : navmesh_callback_t) : M unit :=
  navMeshPtr <- getNavMeshForRegion pRegion ;;
  NavMesh_call navMeshPtr (registerNavMeshListener pNavMeshCallback).

Definition requestGetNavMeshForRegion (pRegion : option LLViewerRegion) : M unit :=
  navMeshPtr <- getNavMeshForRegion pRegion ;;
  version <- gets mNavMeshVersionXXX ;;
  fresh <- NavMesh_read navMeshPtr (fun e => hasNavMeshVersion e version) ;;
  if fresh
  then NavMesh_call navMeshPtr handleRefresh
  else
    match pRegion with
    | None => NavMesh_call navMeshPtr handleNavMeshNotEnabled
    | Some _ =>
        let navMeshURL := getRetrieveNavMeshURLForRegion pRegion in
        if string_empty navMeshURL
        then NavMesh_call navMeshPtr handleNavMeshNotEnabled
        else
          NavMesh_call navMeshPtr (handleNavMeshStart version) ;;;
          emit (HTTPClient_post navMeshURL LLSD_new
                  (NavMeshResponder navMeshURL version navMeshPtr))
    end.

Definition handleNavMeshUpdate (pRegionUUID : LLUUID) (pNavMeshVersion : Z) : M unit :=
  navMeshPtr <- getNavMeshForRegionUUID pRegionUUID ;;
  old <- gets mNavMeshVersionXXX ;;
  modify (set_mNavMeshVersionXXX (U32_incr old)) ;;;
  version <- gets mNavMeshVersionXXX ;;
  NavMesh_call navMeshPtr (handleNavMeshNewVersion version).

(** [LLNavMeshSimStateChangeNode::post]: [None] when the agent has no region
    (the code dereferences the null pointer). *)
Definition LLNavMeshSimStateChangeNode_post (gAgent : LLAgent) : option (M unit) :=
  match getRegion gAgent with
  | Some region => Some (handleNavMeshUpdate (getRegionID region) 0)
  | None => None
  end.

(** [NavMeshResponder::result] and [NavMeshResponder::error], on the
    responder's members. *)
Definition NavMeshResponder_result (navMeshPtr : LLUUID) (version : Z) (pContent : LLSD)
  : M unit :=
  NavMesh_call navMeshPtr (handleNavMeshResult pContent version).

Definition NavMeshResponder_error (navMeshPtr : LLUUID) : M unit :=
  NavMesh_call navMeshPtr handleNavMeshError.

End Manager.

Section Linksets.
Context `{C : Collaborators}.

(** ** LinksetsResponder *)

Record LinksetsResponder : Type := {
  mLinksetsCallback : linksets_callback_t;
  mObjectMessagingState : EMessagingState;
  mTerrainMessagingState : EMessagingState;
  mObjectLinksetListPtr : option LLPathfindingLinksetList;
  mTerrainLinksetPtr : option LLPathfindingLinkset
}.

Definition LinksetsResponder_new (pLinksetsCallback : linksets_callback_t)
    (pIsObjectRequested pIsTerrainRequested : bool) : LinksetsResponder :=
  {| mLinksetsCallback := pLinksetsCallback;
     mObjectMessagingState := if pIsObjectRequested then kWaiting else kNotRequested;
     mTerrainMessagingState := if pIsTerrainRequested then kWaiting else kNotRequested;
     mObjectLinksetListPtr := None;
     mTerrainLinksetPtr := None |}.

Definition set_mObjectMessagingState (v : EMessagingState) (r : LinksetsResponder)
  : LinksetsResponder :=
  {| mLinksetsCallback := mLinksetsCallback r;
     mObjectMessagingState := v;
     mTerrainMessagingState := mTerrainMessagingState r;
     mObjectLinksetListPtr := mObjectLinksetListPtr r;
     mTerrainLinksetPtr := mTerrainLinksetPtr r |}.

Definition set_mTerrainMessagingState (v : EMessagingState) (r : LinksetsResponder)
  : LinksetsResponder :=
  {| mLinksetsCallback := mLinksetsCallback r;
     mObjectMessagingState := mObjectMessagingState r;
     mTerrainMessagingState := v;
     mObjectLinksetListPtr := mObjectLinksetListPtr r;
     mTerrainLinksetPtr := mTerrainLinksetPtr r |}.

Definition set_mObjectLinksetListPtr (v : option LLPathfindingLinksetList) (r : LinksetsResponder)
  : LinksetsResponder :=
  {| mLinksetsCallback := mLinksetsCallback r;
     mObjectMessagingState := mObjectMessagingState r;
     mTerrainMessagingState := mTerrainMessagingState r;
     mObjectLinksetListPtr := v;
     mTerrainLinksetPtr := mTerrainLinksetPtr r |}.

Definition set_mTerrainLinksetPtr (v : option LLPathfindingLinkset) (r : LinksetsResponder)
  : LinksetsResponder :=
  {| mLinksetsCallback := mLinksetsCallback r;
     mObjectMessagingState := mObjectMessagingState r;
     mTerrainMessagingState := mTerrainMessagingState r;
     mObjectLinksetListPtr := mObjectLinksetListPtr r;
     mTerrainLinksetPtr := v |}.

(** The status [sendCallback] computes from the two messaging states. *)
Definition joinedRequestStatus (object terrain : EMessagingState) : ELinksetsRequestStatus :=
  if (bool_decide (object = kReceivedGood) || bool_decide (object = kNotRequested)) &&
     (bool_decide (terrain = kReceivedGood) || bool_decide (terrain = kNotRequested))
  then kLinksetsRequestCompleted
  else kLinksetsRequestError.

(** [sendCallback]. The result is [None] when the code would dereference a
    null [mObjectLinksetListPtr] or [mTerrainLinksetPtr]. The list is mutated
    through the shared pointer and the same pointer is handed to the callback;
    the effect records the list as it is at the call. *)
Definition sendCallback (r : LinksetsResponder) : option (LinksetsResponder * list Effect) :=
  let requestStatus := joinedRequestStatus (mObjectMessagingState r) (mTerrainMessagingState r) in
  let r1 :=
    if bool_decide (mObjectMessagingState r <> kReceivedGood)
    then set_mObjectLinksetListPtr (Some LinksetList_new) r
    else r in
  r2 ← (if bool_decide (mTerrainMessagingState r1 = kReceivedGood)
        then
          l ← mObjectLinksetListPtr r1;
          t ← mTerrainLinksetPtr r1;
          Some (set_mObjectLinksetListPtr (Some (LinksetList_insert (getUUID_asString t) t l)) r1)
        else Some r1);
  Some (r2, [LinksetsCallback (mLinksetsCallback r2) requestStatus (mObjectLinksetListPtr r2)]).

Definition handleObjectLinksetsResult (pContent : LLSD) (r : LinksetsResponder)
  : option (LinksetsResponder * list Effect) :=
  let r := set_mObjectLinksetListPtr (Some (LinksetList_of_LLSD pContent)) r in
  let r := set_mObjectMessagingState kReceivedGood r in
  if bool_decide (mTerrainMessagingState r <> kWaiting) then sendCallback r else Some (r, []).

Definition handleObjectLinksetsError (pStatus : Z) (pReason pURL : string) (r : LinksetsResponder)
  : option (LinksetsResponder * list Effect) :=
  let r := set_mObjectMessagingState kReceivedError r in
  if bool_decide (mTerrainMessagingState r <> kWaiting) then sendCallback r else Some (r, []).

Definition handleTerrainLinksetsResult (pContent : LLSD) (r : LinksetsResponder)
  : option (LinksetsResponder * list Effect) :=
  let r := set_mTerrainLinksetPtr (Some (Linkset_of_LLSD pContent)) r in
  let r := set_mTerrainMessagingState kReceivedGood r in
  if bool_decide (mObjectMessagingState r <> kWaiting) then sendCallback r else Some (r, []).

Definition handleTerrainLinksetsError (pStatus : Z) (pReason pURL : string) (r : LinksetsResponder)
  : option (LinksetsResponder * list Effect) :=
  let r := set_mTerrainMessagingState kReceivedError r in
  if bool_decide (mObjectMessagingState r <> kWaiting) then sendCallback r else Some (r, []).

(** The completion [LLHTTPClient] reports to a linkset responder:
    [ObjectLinksetsResponder::result], [ObjectLinksetsResponder::error],
    [TerrainLinksetsResponder::result], [TerrainLinksetsResponder::error];
    each forwards to the shared [LinksetsResponder]. *)
Inductive LinksetsReply : Type :=
| ObjectResult (pCapabilityURL : string) (pContent : LLSD)
| ObjectError (pCapabilityURL : string) (pStatus : Z) (pReason : string)
| TerrainResult (pCapabilityURL : string) (pContent : LLSD)
| TerrainError (pCapabilityURL : string) (pStatus : Z) (pReason : string).

Definition deliver (reply : LinksetsReply) (r : LinksetsResponder)
  : option (LinksetsResponder * list Effect) :=
  match reply with
  | ObjectResult _ pContent => handleObjectLinksetsResult pContent r
  | ObjectError url pStatus pReason => handleObjectLinksetsError pStatus pReason url r
  | TerrainResult _ pContent => handleTerrainLinksetsResult pContent r
  | TerrainError url pStatus pReason => handleTerrainLinksetsError pStatus pReason url r
  end.

(** The replies in the order the event loop delivers them, with everything
    the responder called so far. *)
Fixpoint deliver_all (replies : list LinksetsReply) (r : LinksetsResponder) (out : list Effect)
  : option (LinksetsResponder * list Effect) :=
  match replies with
  | [] => Some (r, out)
  | reply :: rest =>
      match deliver reply r with
      | Some (r', out') => deliver_all rest r' (out ++ out')
      | None => None
      end
  end.

Definition is_object_reply (reply : LinksetsReply) : bool :=
  match reply with
  | ObjectResult _ _ | ObjectError _ _ _ => true
  | _ => false
  end.

Definition is_terrain_reply (reply : LinksetsReply) : bool := negb (is_object_reply reply).

Definition count_replies (f : LinksetsReply -> bool) (replies : list LinksetsReply) : nat :=
  length (filter (fun reply => f reply = true) replies).

(** The contract of [LLHTTPClient]: the responder of every request is called
    once, with a result or with an error; a sub-operation that was not
    requested has no responder and gets no reply. *)
Definition answered_once (pIsObjectRequested pIsTerrainRequested : bool)
    (replies : list LinksetsReply) : bool :=
  (count_replies is_object_reply replies =? (if pIsObjectRequested then 1 else 0))%nat &&
  (count_replies is_terrain_reply replies =? (if pIsTerrainRequested then 1 else 0))%nat.

Definition is_waiting (s : EMessagingState) : bool := bool_decide (s = kWaiting).


Definition is_linksets_callback (e : Effect) : bool :=
  match e with
  | LinksetsCallback _ _ _ => true
  | _ => false
  end.


(** The calls of the joined callback among everything a responder did. *)
Definition callbacks (out : list Effect) : list Effect :=
  filter (fun e => is_linksets_callback e = true) out.

(** The object linksets a session delivered: the list built from the object
    result, a new list when the object request failed or was not made. *)
Fixpoint object_linksets (replies : list LinksetsReply) : LLPathfindingLinksetList :=
  match replies with
  | [] => LinksetList_new
  | ObjectResult _ pContent :: _ => LinksetList_of_LLSD pContent
  | _ :: rest => object_linksets rest
  end.

(** ** The linkset requests of the manager *)

(** What a linkset request leaves behind: the status it returns, the
    [LinksetsResponder] it built (shared by the responders of the requests it
    sent), and the requests it handed to [LLHTTPClient]. *)
Record LinksetsRequest : Type := {
  request_status : ELinksetsRequestStatus;
  request_responder : option LinksetsResponder;
  request_sent : list Effect
}.

Definition requestGetLinksets (gAgent : LLAgent) (pLinksetsCallback : linksets_callback_t)
  : LinksetsRequest :=
  let objectLinksetsURL := getObjectLinksetsURLForCurrentRegion gAgent in
  let terrainLinksetsURL := getTerrainLinksetsURLForCurrentRegion gAgent in
  if string_empty objectLinksetsURL || string_empty terrainLinksetsURL
  then
    {| request_status := kLinksetsRequestNotEnabled;
       request_responder := None;
       request_sent := [] |}
  else
    let doRequestTerrain := isAllowViewTerrainProperties gAgent in
    {| request_status := kLinksetsRequestStarted;
       request_responder := Some (LinksetsResponder_new pLinksetsCallback true doRequestTerrain);
       request_sent :=
         [HTTPClient_get objectLinksetsURL (ObjectLinksetsResponder objectLinksetsURL)] ++
         (if doRequestTerrain
          then [HTTPClient_get terrainLinksetsURL (TerrainLinksetsResponder terrainLinksetsURL)]
          else []) |}.

Definition requestSetLinksets (gAgent : LLAgent) (pLinksetList : LLPathfindingLinksetList)
    (pLinksetUse : ELinksetUse) (pA pB pC pD : Z) (pLinksetsCallback : linksets_callback_t)
  : LinksetsRequest :=
  let objectLinksetsURL := getObjectLinksetsURLForCurrentRegion gAgent in
  let terrainLinksetsURL := getTerrainLinksetsURLForCurrentRegion gAgent in
  if string_empty objectLinksetsURL || string_empty terrainLinksetsURL
  then
    {| request_status := kLinksetsRequestNotEnabled;
       request_responder := None;
       request_sent := [] |}
  else
    let objectPostData := encodeObjectFields pLinksetList pLinksetUse pA pB pC pD in
    let terrainPostData :=
      if isAllowViewTerrainProperties gAgent
      then encodeTerrainFields pLinksetList pLinksetUse pA pB pC pD
      else LLSD_new in
    if isUndefined objectPostData && isUndefined terrainPostData
    then
      {| request_status := kLinksetsRequestCompleted;
         request_responder := None;
         request_sent := [] |}
    else
      {| request_status := kLinksetsRequestStarted;
         request_responder :=
           Some (LinksetsResponder_new pLinksetsCallback
                   (negb (isUndefined objectPostData)) (negb (isUndefined terrainPostData)));
         request_sent :=
           (if negb (isUndefined objectPostData)
            then [HTTPClient_put objectLinksetsURL objectPostData
                    (ObjectLinksetsResponder objectLinksetsURL)]
            else []) ++
           (if negb (isUndefined terrainPostData)
            then [HTTPClient_put terrainLinksetsURL terrainPostData
                    (TerrainLinksetsResponder terrainLinksetsURL)]
            else []) |}.

(** The linkset requests among the effects, by the responder they carry. *)
Definition is_object_request (e : Effect) : bool :=
  match e with
  | HTTPClient_get _ (ObjectLinksetsResponder _)
  | HTTPClient_post _ _ (ObjectLinksetsResponder _)
  | HTTPClient_put _ _ (ObjectLinksetsResponder _) => true
  | _ => false
  end.

Definition is_terrain_request (e : Effect) : bool :=
  match e with
  | HTTPClient_get _ (TerrainLinksetsResponder _)
  | HTTPClient_post _ _ (TerrainLinksetsResponder _)
  | HTTPClient_put _ _ (TerrainLinksetsResponder _) => true
  | _ => false
  end.

(** [LLHTTPClient] answers each request that was sent once: as many object
    replies as object requests, as many terrain replies as terrain requests. *)
Definition replies_answer (sent : list Effect) (replies : list LinksetsReply) : bool :=
  (count_replies is_object_reply replies =?
     length (filter (fun e => is_object_request e = true) sent))%nat &&
  (count_replies is_terrain_reply replies =?
     length (filter (fun e => is_terrain_request e = true) sent))%nat.

(** What the caller of a linkset request can rely on: unless the status is
    Started nothing was sent and no responder exists, so the callback is never
    called; when it is Started, requests are on their way and, once each is
    answered, the callback has been called exactly once. *)
Definition result_by_callback (pLinksetsCallback : linksets_callback_t) (q : LinksetsRequest)
  : Prop :=
  (request_status q <> kLinksetsRequestStarted ->
   request_responder q = None /\ request_sent q = []) /\
  (request_status q = kLinksetsRequestStarted ->
   exists r,
     request_responder q = Some r /\
     request_sent q <> [] /\
     forall replies,
       replies_answer (request_sent q) replies = true ->
       exists r' out status linksets,
         deliver_all replies r [] = Some (r', out) /\
         callbacks out = [LinksetsCallback pLinksetsCallback status (Some linksets)]).

End Linksets.

Section Session.
Context `{C : Collaborators}.
Local Open Scope manager_scope.

(** ** A session of the manager *)

(** The entry points of the manager that change it: the public member
    functions and the completions of the requests it sent, as the responders
    route them back. *)
Inductive Call : Type :=
| Call_registerAgentStateListener (pAgentStateCallback : agent_state_callback_t)
| Call_getAgentState
| Call_isAllowAlterPermanent
| Call_requestSetAgentState (pRequestedAgentState : EAgentState)
| Call_AgentStateResponder_result (mRequestedAgentState : EAgentState) (pContent : LLSD)
| Call_AgentStateResponder_error (mCapabilityURL : string) (pStatus : Z) (pReason : string)
| Call_registerNavMeshListenerForRegion (pRegion : option LLViewerRegion)
    (pNavMeshCallback : navmesh_callback_t)
| Call_requestGetNavMeshForRegion (pRegion : option LLViewerRegion)
| Call_handleNavMeshUpdate (pRegionUUID : LLUUID) (pNavMeshVersion : Z)
| Call_NavMeshResponder_result (navMeshPtr : LLUUID) (version : Z) (pContent : LLSD)
| Call_NavMeshResponder_error (navMeshPtr : LLUUID).

Definition step (gAgent : LLAgent) (c : Call) : M unit :=
  match c with
  | Call_registerAgentStateListener cb => registerAgentStateListener cb
  | Call_getAgentState => _ <- getAgentState gAgent ;; ret tt
  | Call_isAllowAlterPermanent => _ <- isAllowAlterPermanent gAgent ;; ret tt
  | Call_requestSetAgentState s => requestSetAgentState gAgent s
  | Call_AgentStateResponder_result requested pContent =>
      handleAgentStateResult pContent requested
  | Call_AgentStateResponder_error url pStatus pReason =>
      handleAgentStateError pStatus pReason url
  | Call_registerNavMeshListenerForRegion pRegion cb =>
      registerNavMeshListenerForRegion pRegion cb
  | Call_requestGetNavMeshForRegion pRegion => requestGetNavMeshForRegion pRegion
  | Call_handleNavMeshUpdate pRegionUUID pNavMeshVersion =>
      handleNavMeshUpdate pRegionUUID pNavMeshVersion
  | Call_NavMeshResponder_result navMeshPtr version pContent =>
      NavMeshResponder_result navMeshPtr version pContent
  | Call_NavMeshResponder_error navMeshPtr => NavMeshResponder_error navMeshPtr
  end.

(** The calls of a session in order, each with [gAgent] as it is then. *)
Fixpoint run (calls : list (LLAgent * Call)) : M unit :=
  match calls with
  | [] => ret tt
  | (gAgent, c) :: rest => step gAgent c ;;; run rest
  end.

(** The states the agent-state signal was fired with, oldest first. *)
Fixpoint signalled (out : list Effect) : list EAgentState :=
  match out with
  | [] => []
  | AgentStateSignal _ s :: rest => s :: signalled rest
  | _ :: rest => signalled rest
  end.

(** The last state of a history that is not the error state, [d] when there
    is none. *)
Definition last_non_error (d : EAgentState) (history : list EAgentState) : EAgentState :=
  fold_left (fun acc s => if bool_decide (s = kAgentStateError) then acc else s) history d.

(** The last state of a history, [d] when it is empty. *)
Definition last_state (d : EAgentState) (history : list EAgentState) : EAgentState :=
  fold_left (fun _ s => s) history d.

(** The callbacks a session connected to the agent-state signal, in order. *)
Fixpoint registered (calls : list (LLAgent * Call)) : list agent_state_callback_t :=
  match calls with
  | [] => []
  | (_, Call_registerAgentStateListener cb) :: rest => cb :: registered rest
  | _ :: rest => registered rest
  end.

(** A member function leaves the listeners of the agent-state signal alone. *)
Definition keeps_listeners {A : Type} (x : M A) : Prop :=
  forall m, mAgentStateSignal (x m).1.2 = mAgentStateSignal m.

(** A member function keeps the two agent-state members in step with the
    signal: each is what the states it signalled make of its old value. *)
Definition agent_state_tracked {A : Type} (x : M A) : Prop :=
  forall m,
    mLastKnownNonErrorAgentState (x m).1.2 =
      last_non_error (mLastKnownNonErrorAgentState m) (signalled (x m).2) /\
    mAgentState (x m).1.2 = last_state (mAgentState m) (signalled (x m).2).

End Session.

(** ** A stand-in for the collaborators

    Enough of [LLSD] and of the linkset classes to run the manager on
    written-out inputs: an [LLSD] is undefined, a boolean, a string or a map;
    a linkset list keeps its entries by key. *)

#[warnings="-register-all"]
Inductive SimLLSD : Type :=
| SimUndefined
| SimBoolean (b : bool)
| SimString (s : string)
| SimMap (fields : list (string * SimLLSD)).

Fixpoint sim_lookup {A : Type} (k : string) (fields : list (string * A)) : option A :=
  match fields with
  | [] => None
  | (k', v) :: rest => if String.eqb k k' then Some v else sim_lookup k rest
  end.

Definition sim_fields (d : SimLLSD) : list (string * SimLLSD) :=
  match d with
  | SimMap fields => fields
  | _ => []
  end.

Definition sim_isUndefined (d : SimLLSD) : bool :=
  match d with
  | SimUndefined => true
  | _ => false
  end.

Definition sim_has (d : SimLLSD) (k : string) : bool :=
  match sim_lookup k (sim_fields d) with
  | Some _ => true
  | None => false
  end.

Definition sim_get_asBoolean (d : SimLLSD) (k : string) : bool :=
  match sim_lookup k (sim_fields d) with
  | Some (SimBoolean b) => b
  | _ => false
  end.

Definition sim_set_boolean (d : SimLLSD) (k : string) (b : bool) : SimLLSD :=
  SimMap (List.filter (fun kv => negb (String.eqb k (fst kv))) (sim_fields d) ++ [(k, SimBoolean b)]).

Record SimLinkset : Type := {
  sim_uuid : string;
  sim_properties : SimLLSD
}.

Definition sim_terrain_uuid : string := "00000000-0000-0000-0000-000000000000".

Definition sim_Linkset_of_LLSD (d : SimLLSD) : SimLinkset :=
  {| sim_uuid := sim_terrain_uuid; sim_properties := d |}.

Definition sim_LinksetList_of_LLSD (d : SimLLSD) : list (string * SimLinkset) :=
  List.map (fun kv => (fst kv, {| sim_uuid := fst kv; sim_properties := snd kv |})) (sim_fields d).

Definition sim_LinksetList_insert (k : string) (v : SimLinkset) (l : list (string * SimLinkset))
  : list (string * SimLinkset) :=
  match sim_lookup k l with
  | Some _ => l
  | None => l ++ [(k, v)]
  end.

Definition sim_encode (keep : string -> bool) (l : list (string * SimLinkset)) (use : nat)
    (a b c d : Z) : SimLLSD :=
  match List.filter (fun kv => keep (fst kv)) l with
  | [] => SimUndefined
  | kept => SimMap (List.map (fun kv => (fst kv, SimString "linkset")) kept)
  end.

#[global] Instance Sim : Collaborators := {|
  LLSD := SimLLSD;
  LLSD_new := SimUndefined;
  isUndefined := sim_isUndefined;
  has := sim_has;
  get_asBoolean := sim_get_asBoolean;
  set_boolean := sim_set_boolean;
  LLPathfindingLinkset := SimLinkset;
  ELinksetUse := nat;
  Linkset_of_LLSD := sim_Linkset_of_LLSD;
  getUUID_asString := sim_uuid;
  LLPathfindingLinksetList := list (string * SimLinkset);
  LinksetList_new := [];
  LinksetList_of_LLSD := sim_LinksetList_of_LLSD;
  LinksetList_insert := sim_LinksetList_insert;
  encodeObjectFields := sim_encode (fun k => negb (String.eqb k sim_terrain_uuid));
  encodeTerrainFields := sim_encode (fun k => String.eqb k sim_terrain_uuid)
|}.

(** A region that offers the capabilities of [caps]. *)
Definition sim_region (id : LLUUID) (caps : list (string * string)) (estate : bool)
  : LLViewerRegion :=
  {| getRegionID := id;
     getCapability := fun name => default EmptyString (sim_lookup name caps);
     canManageEstate := estate |}.

Definition sim_agent (region : option LLViewerRegion) (godlike : bool) : LLAgent :=
  {| getRegion := region; isGodlike := godlike |}.

(** ** Written-out inputs *)

(** Two replies of a get request: the object request succeeds with one
    linkset, the terrain request fails with status 500. *)
Definition sample_replies : list (LinksetsReply (C:=Sim)) :=
  [ObjectResult "http://sim/object" (SimMap [("obj1", SimMap [("linkset_use", SimString "walkable")])]);
   TerrainError "http://sim/terrain" 500 "Internal Server Error"].

Definition sample_terrain : SimLLSD := SimMap [("linkset_use", SimString "walkable")].

(** The terrain reply first and good, the object reply second and good. *)
Definition sample_replies_good : list (LinksetsReply (C:=Sim)) :=
  [TerrainResult "http://sim/terrain" sample_terrain;
   ObjectResult "http://sim/object" (SimMap [("obj1", SimMap [("linkset_use", SimString "walkable")])])].

(** A region with every pathfinding capability, one that lacks the navmesh
    capability, one that lacks the agent-state capability and one that lacks
    the terrain-linksets capability. *)
Definition sample_region : LLViewerRegion :=
  sim_region 1%N
    [(CAP_SERVICE_RETRIEVE_NAVMESH, "http://sim/navmesh");
     (CAP_SERVICE_AGENT_STATE, "http://sim/agent");
     (CAP_SERVICE_OBJECT_LINKSETS, "http://sim/object");
     (CAP_SERVICE_TERRAIN_LINKSETS, "http://sim/terrain")] true.

Definition sample_region_no_navmesh : LLViewerRegion :=
  sim_region 2%N [(CAP_SERVICE_AGENT_STATE, "http://sim/agent")] false.

Definition sample_region_no_agent_state : LLViewerRegion :=
  sim_region 3%N [(CAP_SERVICE_RETRIEVE_NAVMESH, "http://sim/navmesh")] false.

Definition sample_region_no_terrain : LLViewerRegion :=
  sim_region 4%N
    [(CAP_SERVICE_RETRIEVE_NAVMESH, "http://sim/navmesh");
     (CAP_SERVICE_OBJECT_LINKSETS, "http://sim/object")] false.

Definition sample_agent : LLAgent := sim_agent (Some sample_region) false.
Definition sample_agent_no_navmesh : LLAgent := sim_agent (Some sample_region_no_navmesh) false.
Definition sample_agent_no_agent_state : LLAgent :=
  sim_agent (Some sample_region_no_agent_state) false.
Definition sample_agent_no_terrain : LLAgent := sim_agent (Some sample_region_no_terrain) false.

(** The reply of the simulator to a request for Unfrozen that it granted. *)
Definition sample_unfrozen_reply : SimLLSD := SimMap [(ALTER_NAVMESH_OBJECTS_FIELD, SimBoolean true)].

(** A cache entry that holds the navmesh of version [v]. *)
Definition sample_entry (k : LLUUID) (v : Z) : LLPathfindingNavMesh (C:=Sim) :=
  {| mRegionUUID := k;
     mNavMeshRequestStatus := kNavMeshRequestCompleted;
     mNavMeshVersion := v;
     mNavMeshData := Some (SimString "navmesh");
     mNavMeshSignal := [5%nat] |}.

(** A manager whose counter is [v] and whose cache holds the navmesh of that
    version for region 1. *)
Definition sample_manager (v : Z) : LLPathfindingManager (C:=Sim) :=
  {| mNavMeshMap := {[ 1%N := sample_entry 1%N v ]};
     mNavMeshVersionXXX := v;
     mAgentStateSignal := [];
     mAgentState := kAgentStateUnknown;
     mLastKnownNonErrorAgentState := kAgentStateUnknown |}.

(** ** What a session is checked against *)

Section Observations.
Context `{C : Collaborators}.

(** The responder as the handlers keep it: its callback is [cb], a pointer
    it follows for a good reply is set, and every call it made is a call of
    [cb] with a list, made when no sub-operation was waiting. *)
Definition responder_ok (cb : linksets_callback_t) (r : LinksetsResponder) (out : list Effect)
  : Prop :=
  mLinksetsCallback r = cb /\
  (mObjectMessagingState r = kReceivedGood -> is_Some (mObjectLinksetListPtr r)) /\
  (mTerrainMessagingState r = kReceivedGood -> is_Some (mTerrainLinksetPtr r)) /\
  (callbacks out <> [] ->
   mObjectMessagingState r <> kWaiting /\ mTerrainMessagingState r <> kWaiting) /\
  Forall (fun e => exists status linksets, e = LinksetsCallback cb status (Some linksets)) out.

(** A member function leaves the member [f] of the manager as it is. *)
Definition preserves {A B : Type} (f : LLPathfindingManager -> B) (x : M A) : Prop :=
  forall m, f (x m).1.2 = f m.

(** A member function removes no entry from the navmesh cache. *)
Definition keeps_entries {A : Type} (x : M A) : Prop :=
  forall m k, is_Some (mNavMeshMap m !! k) -> is_Some (mNavMeshMap (x m).1.2 !! k).

(** Every effect of a member function satisfies [P]. *)
Definition emits {A : Type} (P : Effect -> Prop) (x : M A) : Prop :=
  forall m, Forall P (x m).2.

(** The navmesh notifications of a session. *)
Fixpoint count_updates (calls : list (LLAgent * Call)) : nat :=
  match calls with
  | [] => 0
  | (_, Call_handleNavMeshUpdate _ _) :: rest => S (count_updates rest)
  | _ :: rest => count_updates rest
  end.

(** The agent-state signal carries a state other than Unknown. *)
Definition signals_known_state (e : Effect) : Prop :=
  match e with
  | AgentStateSignal _ s => s <> kAgentStateUnknown
  | _ => True
  end.

(** The requests the manager itself sends: a GET or a POST for the agent
    state, a POST for the navmesh; each goes to a URL that is not empty and
    carries a responder that knows this URL; a GET for the agent state is
    tagged Unknown. *)
Definition wellformed_request (e : Effect) : Prop :=
  match e with
  | HTTPClient_get url (AgentStateResponder url' requested) =>
      string_empty url = false /\ url' = url /\ requested = kAgentStateUnknown
  | HTTPClient_post url _ (AgentStateResponder url' _) => string_empty url = false /\ url' = url
  | HTTPClient_post url _ (NavMeshResponder url' _ _) => string_empty url = false /\ url' = url
  | HTTPClient_get _ _ | HTTPClient_post _ _ _ | HTTPClient_put _ _ _ => False
  | _ => True
  end.

(** The requests of the two linkset functions of an agent: GETs when [put]
    is false, PUTs with a defined body when it is true; the object responder
    goes with the object-linksets URL of the current region, the terrain
    responder with the terrain-linksets URL; the URL is not empty and the
    responder knows it. *)
Definition wellformed_linkset_request (gAgent : LLAgent) (put : bool) (e : Effect) : Prop :=
  match e with
  | HTTPClient_get url (ObjectLinksetsResponder url') =>
      put = false /\ string_empty url = false /\ url' = url /\
      url = getObjectLinksetsURLForCurrentRegion gAgent
  | HTTPClient_get url (TerrainLinksetsResponder url') =>
      put = false /\ string_empty url = false /\ url' = url /\
      url = getTerrainLinksetsURLForCurrentRegion gAgent
  | HTTPClient_put url body (ObjectLinksetsResponder url') =>
      put = true /\ string_empty url = false /\ url' = url /\
      url = getObjectLinksetsURLForCurrentRegion gAgent /\ isUndefined body = false
  | HTTPClient_put url body (TerrainLinksetsResponder url') =>
      put = true /\ string_empty url = false /\ url' = url /\
      url = getTerrainLinksetsURLForCurrentRegion gAgent /\ isUndefined body = false
  | _ => False
  end.

(** The laws of an [LLSD] map that the agent-state wire format rests on: a
    boolean stored under a key is read back under that key, and storing under
    another key does not change what is read. *)
Definition LLSD_boolean_store : Prop :=
  (forall d k b, get_asBoolean (set_boolean d k b) k = b) /\
  (forall d k k' b, k <> k' -> get_asBoolean (set_boolean d k' b) k = get_asBoolean d k).

End Observations.

(** An agent in a region with both linkset capabilities who may not view
    terrain properties, and an agent who is in no region. *)
Definition sample_agent_no_estate : LLAgent :=
  sim_agent
    (Some (sim_region 5%N
             [(CAP_SERVICE_RETRIEVE_NAVMESH, "http://sim/navmesh");
              (CAP_SERVICE_AGENT_STATE, "http://sim/agent");
              (CAP_SERVICE_OBJECT_LINKSETS, "http://sim/object");
              (CAP_SERVICE_TERRAIN_LINKSETS, "http://sim/terrain")] false))
    false.

Definition sample_agent_nowhere : LLAgent := sim_agent None false.

(** A list of linksets with one object and the terrain. *)
Definition sample_linksets : list (string * SimLinkset) :=
  [("obj1", {| sim_uuid := "obj1"; sim_properties := SimString "walkable" |});
   (sim_terrain_uuid, {| sim_uuid := sim_terrain_uuid; sim_properties := sample_terrain |})].

(** * Properties *)

Section LinksetsProofs.
Context `{C : Collaborators}.

(** ** The join of the two linkset replies *)

Lemma count_replies_cons (f : LinksetsReply -> bool) (a : LinksetsReply) (l : list LinksetsReply) :
  count_replies f (a :: l) = ((if f a then 1 else 0) + count_replies f l)%nat.
Proof.
  unfold count_replies. rewrite filter_cons.
  destruct (f a); case_decide; simpl; congruence.
Qed.

(** The sessions [answered_once] allows: no reply, one reply, or the two
    replies in either order. *)
Lemma answered_once_shape (o t : bool) (replies : list LinksetsReply) :
  answered_once o t replies = true ->
  match replies with
  | [] => o = false /\ t = false
  | [a] => o = is_object_reply a /\ t = is_terrain_reply a
  | [a; b] => o = true /\ t = true /\ is_object_reply a = is_terrain_reply b
  | _ => False
  end.
Proof.
  unfold answered_once. intros H.
  apply andb_true_iff in H as [Ho Ht].
  apply Nat.eqb_eq in Ho, Ht.
  destruct replies as [|a [|b [|c rest]]];
    repeat rewrite count_replies_cons in Ho, Ht;
    unfold is_terrain_reply in *;
    change (count_replies is_object_reply []) with 0%nat in *;
    change (count_replies (fun reply => negb (is_object_reply reply)) []) with 0%nat in *.
  - destruct o, t; simpl in *; try lia; auto.
  - destruct (is_object_reply a), o, t; simpl in *; try lia; auto.
  - destruct (is_object_reply a), (is_object_reply b), o, t; simpl in *; try lia; auto.
  - destruct (is_object_reply a), (is_object_reply b), (is_object_reply c), o, t;
      simpl in *; lia.
Qed.






(** What [sendCallback] does on any responder whose pointers are set where
    it follows them. *)
Lemma sendCallback_spec (r r' : LinksetsResponder) (out : list Effect) :
  sendCallback r = Some (r', out) ->
  out = [LinksetsCallback (mLinksetsCallback r)
           (joinedRequestStatus (mObjectMessagingState r) (mTerrainMessagingState r))
           (mObjectLinksetListPtr r')] /\
  mObjectMessagingState r' = mObjectMessagingState r /\
  mTerrainMessagingState r' = mTerrainMessagingState r.
Proof.
  unfold sendCallback. destruct r as [cb so st lo lt]; simpl. intros H.
  repeat case_bool_decide; simpl in *; destruct lo, lt; simplify_option_eq; auto.
Qed.

Lemma joinedRequestStatus_spec (object terrain : EMessagingState) :
  (joinedRequestStatus object terrain = kLinksetsRequestCompleted <->
   (object = kReceivedGood \/ object = kNotRequested) /\
   (terrain = kReceivedGood \/ terrain = kNotRequested)) /\
  (joinedRequestStatus object terrain <> kLinksetsRequestCompleted ->
   joinedRequestStatus object terrain = kLinksetsRequestError).
Proof.
  destruct object, terrain; vm_compute; intuition congruence.
Qed.

Ltac only_callback H :=
  repeat match type of H with
         | _ ∈ [] => inversion H
         | _ ∈ _ :: _ => apply elem_of_cons in H as [H|H]; [simplify_eq H; intros; subst|]
         end.

(** C2: when every requested sub-operation has been answered, the joined
    callback has been called once (not at all if nothing was requested), and
    the status handed to it is Completed exactly when each of the two
    sub-operations ended as ReceivedGood or was NotRequested, and Error in
    every other case. *)
Theorem linksets_callback_status (cb : linksets_callback_t) (o t : bool)
    (replies : list LinksetsReply) :
  answered_once o t replies = true ->
  exists r out,
    deliver_all replies (LinksetsResponder_new cb o t) [] = Some (r, out) /\
    (if o || t
     then
       exists status linksets,
         out = [LinksetsCallback cb status linksets] /\
         (status = kLinksetsRequestCompleted <->
          (mObjectMessagingState r = kReceivedGood \/ mObjectMessagingState r = kNotRequested) /\
          (mTerrainMessagingState r = kReceivedGood \/
           mTerrainMessagingState r = kNotRequested)) /\
         (status <> kLinksetsRequestCompleted -> status = kLinksetsRequestError)
     else out = []) /\
    forall cb' status linksets,
      LinksetsCallback cb' status linksets ∈ out ->
      (status = kLinksetsRequestCompleted <->
       (mObjectMessagingState r = kReceivedGood \/ mObjectMessagingState r = kNotRequested) /\
       (mTerrainMessagingState r = kReceivedGood \/ mTerrainMessagingState r = kNotRequested)) /\
      (status <> kLinksetsRequestCompleted -> status = kLinksetsRequestError).
Proof.
  intros Hans. apply answered_once_shape in Hans.
  destruct replies as [|a [|b [|c rest]]]; try contradiction.
  - destruct Hans as [-> ->]. do 2 eexists. split; [reflexivity|].
    split; [reflexivity|].
    intros cb' status linksets Hin. inversion Hin.
  - destruct Hans as [-> ->].
    destruct a; (do 2 eexists; split; [vm_compute; reflexivity|]);
      (split;
       [ cbn; do 2 eexists; (split; [reflexivity|]); cbn; intuition congruence
       | intros cb' status linksets Hin; only_callback Hin; cbn; intuition congruence ]).
  - destruct Hans as (-> & -> & Hab).
    destruct a, b; try discriminate Hab;
      (do 2 eexists; split; [vm_compute; reflexivity|]);
      (split;
       [ cbn; do 2 eexists; (split; [reflexivity|]); cbn; intuition congruence
       | intros cb' status linksets Hin; only_callback Hin; cbn; intuition congruence ]).
Qed.


Ltac find_reply H :=
  repeat match type of H with
         | _ ∈ [] => inversion H
         | _ ∈ _ :: _ => apply elem_of_cons in H as [H|H]; [try discriminate H|]
         end.

(** C3: when the object request succeeds and the terrain request fails, the
    callback is called once, with Error and the list built from the object
    result alone; when the terrain request succeeds, the callback is called
    once with the object list (a new list if there is no object result) into
    which the terrain linkset was inserted under its own identifier. *)
Theorem linksets_callback_list (cb : linksets_callback_t) :
  (forall replies urlo content urlt status reason,
     answered_once true true replies = true ->
     ObjectResult urlo content ∈ replies ->
     TerrainError urlt status reason ∈ replies ->
     exists r out,
       deliver_all replies (LinksetsResponder_new cb true true) [] = Some (r, out) /\
       callbacks out =
         [LinksetsCallback cb kLinksetsRequestError (Some (LinksetList_of_LLSD content))]) /\
  (forall o replies urlt content,
     answered_once o true replies = true ->
     TerrainResult urlt content ∈ replies ->
     exists r out status,
       deliver_all replies (LinksetsResponder_new cb o true) [] = Some (r, out) /\
       callbacks out =
         [LinksetsCallback cb status
            (Some (LinksetList_insert (getUUID_asString (Linkset_of_LLSD content))
                     (Linkset_of_LLSD content) (object_linksets replies)))]).
Proof.
  split.
  - intros replies urlo content urlt status reason Hans Hobj Hter.
    apply answered_once_shape in Hans.
    destruct replies as [|a [|b [|c rest]]]; try contradiction.
    + inversion Hobj.
    + find_reply Hobj. subst a. find_reply Hter.
    + destruct Hans as (_ & _ & Hab).
      destruct a, b; try discriminate Hab; find_reply Hobj; find_reply Hter;
        simplify_eq; do 2 eexists; split; vm_compute; reflexivity.
  - intros o replies urlt content Hans Hter.
    apply answered_once_shape in Hans.
    destruct replies as [|a [|b [|c rest]]]; try contradiction.
    + inversion Hter.
    + destruct Hans as [-> _].
      destruct a; find_reply Hter; simplify_eq;
        do 3 eexists; split; vm_compute; reflexivity.
    + destruct Hans as (-> & _ & Hab).
      destruct a, b; try discriminate Hab; find_reply Hter; simplify_eq;
        do 3 eexists; split; vm_compute; reflexivity.
Qed.


Lemma callback_once_when_answered (cb : linksets_callback_t) (o t : bool)
    (replies : list LinksetsReply) :
  o || t = true ->
  answered_once o t replies = true ->
  exists r out status linksets,
    deliver_all replies (LinksetsResponder_new cb o t) [] = Some (r, out) /\
    callbacks out = [LinksetsCallback cb status (Some linksets)].
Proof.
  intros Hreq Hans. apply answered_once_shape in Hans.
  destruct replies as [|a [|b [|c rest]]]; try contradiction.
  - destruct Hans as [-> ->]. discriminate Hreq.
  - destruct Hans as [-> ->].
    destruct a; do 4 eexists; split; vm_compute; reflexivity.
  - destruct Hans as (-> & -> & Hab).
    destruct a, b; try discriminate Hab; do 4 eexists; split; vm_compute; reflexivity.
Qed.

(** ** The linkset requests *)

Lemma idle_result_by_callback (cb : linksets_callback_t) (status : ELinksetsRequestStatus) :
  status <> kLinksetsRequestStarted ->
  result_by_callback cb
    {| request_status := status; request_responder := None; request_sent := [] |}.
Proof. intros Hs. split; simpl; [auto|contradiction]. Qed.

Lemma started_result_by_callback (cb : linksets_callback_t) (o t : bool) (sent : list Effect) :
  o || t = true ->
  (forall replies, replies_answer sent replies = answered_once o t replies) ->
  sent <> [] ->
  result_by_callback cb
    {| request_status := kLinksetsRequestStarted;
       request_responder := Some (LinksetsResponder_new cb o t);
       request_sent := sent |}.
Proof.
  intros Hreq Hsent Hne. split; simpl; [contradiction|]. intros _.
  eexists. split; [reflexivity|]. split; [exact Hne|].
  intros replies Hans. rewrite Hsent in Hans.
  apply callback_once_when_answered; assumption.
Qed.

(** C7 (amended): [requestGetLinksets] returns NotEnabled or Started;
    [requestSetLinksets] returns NotEnabled, Started or, when both capabilities
    are there and neither object nor terrain data is to be sent, Completed.
    Only a Started request sends anything, and its result comes by the
    callback, called once when the requests are answered. *)
Theorem linkset_requests_status (gAgent : LLAgent) (cb : linksets_callback_t)
    (pLinksetList : LLPathfindingLinksetList) (pLinksetUse : ELinksetUse) (pA pB pC pD : Z) :
  let g := requestGetLinksets gAgent cb in
  let s := requestSetLinksets gAgent pLinksetList pLinksetUse pA pB pC pD cb in
  let objectPostData := encodeObjectFields pLinksetList pLinksetUse pA pB pC pD in
  let terrainPostData :=
    if isAllowViewTerrainProperties gAgent
    then encodeTerrainFields pLinksetList pLinksetUse pA pB pC pD
    else LLSD_new in
  (request_status g = kLinksetsRequestNotEnabled \/ request_status g = kLinksetsRequestStarted) /\
  (request_status s = kLinksetsRequestNotEnabled \/ request_status s = kLinksetsRequestStarted \/
   request_status s = kLinksetsRequestCompleted) /\
  (request_status s = kLinksetsRequestCompleted <->
   string_empty (getObjectLinksetsURLForCurrentRegion gAgent) = false /\
   string_empty (getTerrainLinksetsURLForCurrentRegion gAgent) = false /\
   isUndefined objectPostData = true /\ isUndefined terrainPostData = true) /\
  result_by_callback cb g /\
  result_by_callback cb s.
Proof.
  intros g s objectPostData terrainPostData.
  subst g s. unfold requestGetLinksets, requestSetLinksets.
  fold objectPostData terrainPostData.
  destruct (string_empty (getObjectLinksetsURLForCurrentRegion gAgent)) eqn:Hou;
    [|destruct (string_empty (getTerrainLinksetsURLForCurrentRegion gAgent)) eqn:Htu];
    simpl.
  1, 2: repeat split; auto using idle_result_by_callback; try discriminate;
          intros (? & ? & ? & ?); discriminate.
  split; [auto|]. split; [|split; [|split]].
  - destruct (isUndefined objectPostData && isUndefined terrainPostData); simpl; auto.
  - destruct (isUndefined objectPostData), (isUndefined terrainPostData); simpl;
      intuition discriminate.
  - destruct (isAllowViewTerrainProperties gAgent);
      apply started_result_by_callback; try reflexivity; discriminate.
  - destruct (isUndefined objectPostData), (isUndefined terrainPostData); simpl;
      first [ apply idle_result_by_callback; discriminate
            | apply started_result_by_callback; try reflexivity; discriminate ].
Qed.

(** C10: when the object-linksets or the terrain-linksets capability URL is
    empty, [requestGetLinksets] returns NotEnabled, builds no responder and
    sends no request, so the callback is never called; whether the caller may
    view terrain properties plays no part. *)
Theorem get_linksets_needs_both_capabilities (gAgent : LLAgent) (cb : linksets_callback_t) :
  string_empty (getObjectLinksetsURLForCurrentRegion gAgent) = true \/
  string_empty (getTerrainLinksetsURLForCurrentRegion gAgent) = true ->
  requestGetLinksets gAgent cb =
    {| request_status := kLinksetsRequestNotEnabled;
       request_responder := None;
       request_sent := [] |} /\
  forall replies,
    replies_answer (request_sent (requestGetLinksets gAgent cb)) replies = true -> replies = [].
Proof.
  intros Hurl.
  assert (Heq : requestGetLinksets gAgent cb =
                {| request_status := kLinksetsRequestNotEnabled;
                   request_responder := None;
                   request_sent := [] |}).
  { unfold requestGetLinksets. destruct Hurl as [-> | ->]; [reflexivity|].
    rewrite orb_true_r. reflexivity. }
  split; [exact Heq|].
  rewrite Heq. simpl. intros replies Hans.
  apply (answered_once_shape false false) in Hans.
  destruct replies as [|a [|b [|c rest]]]; simpl in Hans.
  - reflexivity.
  - destruct Hans as [Ho Ht]. unfold is_terrain_reply in Ht.
    destruct (is_object_reply a); discriminate.
  - destruct Hans as [Ho _]. discriminate Ho.
  - contradiction.
Qed.

End LinksetsProofs.

Section ManagerProofs.
Context `{C : Collaborators}.
Local Open Scope manager_scope.

(** ** The agent state *)

Lemma signalled_app (out1 out2 : list Effect) :
  signalled (out1 ++ out2) = signalled out1 ++ signalled out2.
Proof.
  induction out1 as [|e out1 IH]; simpl; [reflexivity|].
  destruct e; simpl; rewrite ?IH; reflexivity.
Qed.

Lemma last_non_error_app (d : EAgentState) (h1 h2 : list EAgentState) :
  last_non_error d (h1 ++ h2) = last_non_error (last_non_error d h1) h2.
Proof. unfold last_non_error. apply fold_left_app. Qed.

Lemma last_state_app (d : EAgentState) (h1 h2 : list EAgentState) :
  last_state d (h1 ++ h2) = last_state (last_state d h1) h2.
Proof. unfold last_state. apply fold_left_app. Qed.

Lemma last_non_error_ok (d : EAgentState) (h : list EAgentState) :
  d <> kAgentStateError -> last_non_error d h <> kAgentStateError.
Proof.
  revert d. induction h as [|s h IH]; intros d Hd; simpl; [exact Hd|].
  apply IH. case_bool_decide; congruence.
Qed.

Lemma tracked_ret {A : Type} (a : A) : agent_state_tracked (ret a).
Proof. intros m. split; reflexivity. Qed.

Lemma tracked_gets {A : Type} (f : LLPathfindingManager -> A) : agent_state_tracked (gets f).
Proof. intros m. split; reflexivity. Qed.

Lemma tracked_bind {A B : Type} (x : M A) (f : A -> M B) :
  agent_state_tracked x -> (forall a, agent_state_tracked (f a)) ->
  agent_state_tracked (bind x f).
Proof.
  intros Hx Hf m. unfold bind.
  specialize (Hx m). destruct (x m) as [[a m1] out1]. simpl in Hx.
  specialize (Hf a m1). destruct (f a m1) as [[b m2] out2]. simpl in *.
  rewrite signalled_app, last_non_error_app, last_state_app.
  destruct Hx as [<- <-]. exact Hf.
Qed.

Lemma tracked_emit (e : Effect) : signalled [e] = [] -> agent_state_tracked (emit e).
Proof. intros He m. unfold emit. simpl fst; simpl snd. rewrite He. split; reflexivity. Qed.

Lemma tracked_setAgentState (s : EAgentState) : agent_state_tracked (setAgentState s).
Proof.
  intros m. unfold setAgentState, bind, modify, gets, emit, ret. simpl.
  destruct s; vm_compute; split; reflexivity.
Qed.

Lemma tracked_register (cb : agent_state_callback_t) :
  agent_state_tracked (registerAgentStateListener cb).
Proof. intros m. split; reflexivity. Qed.

Lemma tracked_getNavMeshForRegionUUID (k : LLUUID) :
  agent_state_tracked (getNavMeshForRegionUUID k).
Proof.
  intros m. unfold getNavMeshForRegionUUID, bind, gets. simpl.
  destruct (mNavMeshMap m !! k); split; reflexivity.
Qed.

Lemma tracked_NavMesh_call (k : LLUUID)
    (f : LLPathfindingNavMesh -> LLPathfindingNavMesh * list Effect) :
  (forall e, signalled (f e).2 = []) -> agent_state_tracked (NavMesh_call k f).
Proof.
  intros Hf m. unfold NavMesh_call.
  specialize (Hf (default (NavMesh_new k) (mNavMeshMap m !! k))).
  destruct (f _) as [e out]. simpl in *. rewrite Hf. split; reflexivity.
Qed.

Lemma tracked_modify_version (v : Z) : agent_state_tracked (modify (set_mNavMeshVersionXXX v)).
Proof. intros m. split; reflexivity. Qed.

Create HintDb tracked.
#[local] Hint Resolve tracked_ret tracked_gets tracked_setAgentState tracked_register
  tracked_getNavMeshForRegionUUID tracked_modify_version : tracked.

Ltac tracked :=
  repeat first
    [ progress cbv zeta
    | solve [auto with tracked]
    | apply tracked_bind; [|intros]
    | apply tracked_emit; reflexivity
    | apply tracked_NavMesh_call; intros; reflexivity
    | match goal with
      | |- agent_state_tracked (if ?b then _ else _) => destruct b
      | |- agent_state_tracked (match ?x with _ => _ end) => destruct x
      end ].

Lemma tracked_requestGetAgentState (gAgent : LLAgent) :
  agent_state_tracked (requestGetAgentState gAgent).
Proof. unfold requestGetAgentState. tracked. Qed.

Lemma tracked_getAgentState (gAgent : LLAgent) : agent_state_tracked (getAgentState gAgent).
Proof.
  unfold getAgentState. pose proof (tracked_requestGetAgentState gAgent). tracked.
Qed.

Lemma tracked_step (gAgent : LLAgent) (c : Call) : agent_state_tracked (step gAgent c).
Proof.
  pose proof (tracked_getAgentState gAgent).
  destruct c; simpl;
    unfold isAllowAlterPermanent, requestSetAgentState, handleAgentStateResult,
      handleAgentStateError, registerNavMeshListenerForRegion, requestGetNavMeshForRegion,
      handleNavMeshUpdate, NavMeshResponder_result, NavMeshResponder_error, getNavMeshForRegion,
      NavMesh_read;
    tracked.
Qed.

Lemma tracked_run (calls : list (LLAgent * Call)) : agent_state_tracked (run calls).
Proof.
  induction calls as [|[gAgent c] calls IH]; simpl.
  - apply tracked_ret.
  - apply tracked_bind; [apply tracked_step|intros; exact IH].
Qed.


Lemma setAgentState_eq (s : EAgentState) (m : LLPathfindingManager) :
  setAgentState s m =
    (tt,
     (if bool_decide (s = kAgentStateError)
      then set_mAgentState s m
      else set_mLastKnownNonErrorAgentState s (set_mAgentState s m)),
     [AgentStateSignal (mAgentStateSignal m) s]).
Proof. destruct s; reflexivity. Qed.

Lemma keeps_ret {A : Type} (a : A) : keeps_listeners (ret a).
Proof. intros m. reflexivity. Qed.

Lemma keeps_gets {A : Type} (f : LLPathfindingManager -> A) : keeps_listeners (gets f).
Proof. intros m. reflexivity. Qed.

Lemma keeps_emit (e : Effect) : keeps_listeners (emit e).
Proof. intros m. reflexivity. Qed.

Lemma keeps_bind {A B : Type} (x : M A) (f : A -> M B) :
  keeps_listeners x -> (forall a, keeps_listeners (f a)) -> keeps_listeners (bind x f).
Proof.
  intros Hx Hf m. unfold bind.
  specialize (Hx m). destruct (x m) as [[a m1] out1]. simpl in Hx.
  specialize (Hf a m1). destruct (f a m1) as [[b m2] out2]. simpl in *.
  congruence.
Qed.

Lemma keeps_setAgentState (s : EAgentState) : keeps_listeners (setAgentState s).
Proof. intros m. rewrite setAgentState_eq. destruct s; reflexivity. Qed.

Lemma keeps_getNavMeshForRegionUUID (k : LLUUID) : keeps_listeners (getNavMeshForRegionUUID k).
Proof.
  intros m. unfold getNavMeshForRegionUUID, bind, gets. simpl.
  destruct (mNavMeshMap m !! k); reflexivity.
Qed.

Lemma keeps_NavMesh_call (k : LLUUID)
    (f : LLPathfindingNavMesh -> LLPathfindingNavMesh * list Effect) :
  keeps_listeners (NavMesh_call k f).
Proof. intros m. unfold NavMesh_call. destruct (f _) as [e out]. reflexivity. Qed.

Lemma keeps_modify_version (v : Z) : keeps_listeners (modify (set_mNavMeshVersionXXX v)).
Proof. intros m. reflexivity. Qed.

Create HintDb listeners.
#[local] Hint Resolve keeps_ret keeps_gets keeps_emit keeps_setAgentState
  keeps_getNavMeshForRegionUUID keeps_NavMesh_call keeps_modify_version : listeners.

Ltac listeners :=
  repeat first
    [ progress cbv zeta
    | solve [auto with listeners]
    | apply keeps_bind; [|intros]
    | match goal with
      | |- keeps_listeners (if ?b then _ else _) => destruct b
      | |- keeps_listeners (match ?x with _ => _ end) => destruct x
      end ].

Lemma keeps_getAgentState (gAgent : LLAgent) : keeps_listeners (getAgentState gAgent).
Proof. unfold getAgentState, requestGetAgentState. listeners. Qed.

(** Only [registerAgentStateListener] changes the listeners: it connects
    its callback behind the ones already there. *)
Lemma listeners_step (gAgent : LLAgent) (c : Call) (m : LLPathfindingManager) :
  mAgentStateSignal (step gAgent c m).1.2 = mAgentStateSignal m ++ registered [(gAgent, c)].
Proof.
  pose proof (keeps_getAgentState gAgent) as Hget.
  destruct c; simpl registered; rewrite ?app_nil_r.
  1: reflexivity.
  all: revert m;
    lazymatch goal with
    | |- forall m, mAgentStateSignal (?x m).1.2 = _ => change (keeps_listeners x)
    end;
    simpl;
    unfold isAllowAlterPermanent, requestSetAgentState, handleAgentStateResult,
      handleAgentStateError, registerNavMeshListenerForRegion, requestGetNavMeshForRegion,
      handleNavMeshUpdate, NavMeshResponder_result, NavMeshResponder_error, getNavMeshForRegion,
      NavMesh_read;
    listeners.
Qed.

Lemma listeners_run (calls : list (LLAgent * Call)) (m : LLPathfindingManager) :
  mAgentStateSignal (run calls m).1.2 = mAgentStateSignal m ++ registered calls.
Proof.
  revert m. induction calls as [|[gAgent c] calls IH]; intros m.
  - simpl. rewrite app_nil_r. reflexivity.
  - assert (Hreg : registered ((gAgent, c) :: calls) =
                    registered [(gAgent, c)] ++ registered calls)
      by (destruct c; reflexivity).
    rewrite Hreg. simpl run. unfold bind.
    pose proof (listeners_step gAgent c m) as Hstep.
    destruct (step gAgent c m) as [[u m1] out1]. simpl in Hstep.
    specialize (IH m1). destruct (run calls m1) as [[u' m2] out2]. simpl in *.
    rewrite IH, Hstep, <- app_assoc. reflexivity.
Qed.

(** C9: every call of [setAgentState] fires the agent-state signal with the
    new state at all connected listeners, which through any session of the
    manager are the callbacks registered so far, and
    [getLastKnownNonErrorAgentState] is the last signalled state that is not
    the error state (the constructor's Unknown before there is one), so it is
    never the error state. *)
Theorem agent_state_signal_and_last_known :
  (forall s m, exists m',
     setAgentState s m = (tt, m', [AgentStateSignal (mAgentStateSignal m) s]) /\
     mAgentState m' = s /\
     mAgentStateSignal m' = mAgentStateSignal m /\
     mLastKnownNonErrorAgentState m' =
       (if bool_decide (s = kAgentStateError) then mLastKnownNonErrorAgentState m else s)) /\
  (forall calls,
     let result := run calls LLPathfindingManager_new in
     (getLastKnownNonErrorAgentState result.1.2).1.1 =
       last_non_error kAgentStateUnknown (signalled result.2) /\
     (getLastKnownNonErrorAgentState result.1.2).1.1 <> kAgentStateError /\
     mAgentState result.1.2 = last_state kAgentStateUnknown (signalled result.2) /\
     mAgentStateSignal result.1.2 = registered calls).
Proof.
  split.
  - intros s m. rewrite setAgentState_eq. eexists. split; [reflexivity|].
    destruct s; repeat split; reflexivity.
  - intros calls result.
    destruct (tracked_run calls LLPathfindingManager_new) as [Hlast Hcur].
    fold result in Hlast, Hcur. simpl in Hlast, Hcur.
    unfold getLastKnownNonErrorAgentState, gets. simpl.
    rewrite Hlast. split; [reflexivity|]. split; [|split; [exact Hcur|]].
    + apply last_non_error_ok. discriminate.
    + subst result. rewrite listeners_run. reflexivity.
Qed.

Lemma isValidAgentState_cases (s : EAgentState) :
  isValidAgentState s = true -> s = kAgentStateFrozen \/ s = kAgentStateUnfrozen.
Proof. destruct s; vm_compute; intros H; try discriminate H; auto. Qed.

(** C4 (amended): for a target T in {Frozen, Unfrozen} and a region with the
    agent-state capability, [requestSetAgentState T] posts one request tagged
    with T; a reply that decodes to T sets the agent state to T, and then
    [getAgentState] returns T when pathfinding is enabled for the current
    region; a reply that decodes to another state sets the agent state to
    Error. *)
Theorem set_agent_state_reply (gAgent gAgent' : LLAgent) (T : EAgentState) (pContent : LLSD)
    (m m1 : LLPathfindingManager) :
  isValidAgentState T = true ->
  string_empty (getAgentStateURLForCurrentRegion gAgent) = false ->
  let url := getAgentStateURLForCurrentRegion gAgent in
  let m2 := (handleAgentStateResult pContent T m1).1.2 in
  (exists body,
     requestSetAgentState gAgent T m = (tt, m, [HTTPClient_post url body (AgentStateResponder url T)])) /\
  (decodeAgentState pContent = T ->
   mAgentState m2 = T /\
   (isPathfindingEnabledForCurrentRegion gAgent' = true ->
    getAgentState gAgent' m2 = (T, m2, []))) /\
  (decodeAgentState pContent <> T -> mAgentState m2 = kAgentStateError).
Proof.
  intros HT Hurl url m2. split; [|split].
  - subst url. unfold requestSetAgentState. cbv zeta. rewrite Hurl. eexists. reflexivity.
  - intros Hdec. subst m2. unfold handleAgentStateResult.
    rewrite Hdec, HT, setAgentState_eq.
    apply isValidAgentState_cases in HT.
    split.
    + destruct HT as [-> | ->]; reflexivity.
    + intros Hen. unfold getAgentState. rewrite Hen.
      destruct HT as [-> | ->]; reflexivity.
  - intros Hdec. subst m2. unfold handleAgentStateResult.
    rewrite HT. simpl. rewrite bool_decide_true by exact Hdec.
    rewrite setAgentState_eq. reflexivity.
Qed.

(** C8 (amended): [getAgentState] forces NotEnabled and returns it when
    pathfinding is disabled for the current region. When it is enabled and the
    state is neither Frozen nor Unfrozen, it sends one GET for the true state
    and returns the state unchanged if the region has the agent-state
    capability, and otherwise sends nothing, forces NotEnabled and returns it.
    When the state is Frozen or Unfrozen it returns it and does nothing. *)
Theorem get_agent_state_cases (gAgent : LLAgent) (m : LLPathfindingManager) :
  let url := getAgentStateURLForCurrentRegion gAgent in
  let forced := set_mLastKnownNonErrorAgentState kAgentStateNotEnabled
                  (set_mAgentState kAgentStateNotEnabled m) in
  (isPathfindingEnabledForCurrentRegion gAgent = false ->
   getAgentState gAgent m =
     (kAgentStateNotEnabled, forced,
      [AgentStateSignal (mAgentStateSignal m) kAgentStateNotEnabled])) /\
  (isPathfindingEnabledForCurrentRegion gAgent = true ->
   isValidAgentState (mAgentState m) = false ->
   string_empty url = false ->
   getAgentState gAgent m =
     (mAgentState m, m, [HTTPClient_get url (AgentStateResponder url kAgentStateUnknown)])) /\
  (isPathfindingEnabledForCurrentRegion gAgent = true ->
   isValidAgentState (mAgentState m) = false ->
   string_empty url = true ->
   getAgentState gAgent m =
     (kAgentStateNotEnabled, forced,
      [AgentStateSignal (mAgentStateSignal m) kAgentStateNotEnabled])) /\
  (isPathfindingEnabledForCurrentRegion gAgent = true ->
   isValidAgentState (mAgentState m) = true ->
   getAgentState gAgent m = (mAgentState m, m, [])).
Proof.
  intros url forced. unfold getAgentState, requestGetAgentState. fold url.
  repeat split.
  - intros ->. reflexivity.
  - intros -> Hv Hu. unfold bind, gets. simpl. rewrite Hv, Hu. reflexivity.
  - intros -> Hv Hu. unfold bind, gets. simpl. rewrite Hv, Hu. reflexivity.
  - intros -> Hv. unfold bind, gets. simpl. rewrite Hv. reflexivity.
Qed.

End ManagerProofs.

Section NavMeshProofs.
Context `{C : Collaborators}.
Local Open Scope manager_scope.

(** ** The navmesh cache and its version counter *)

Lemma getNavMeshForRegionUUID_spec (k : LLUUID) (m : LLPathfindingManager) :
  exists m',
    getNavMeshForRegionUUID k m = (k, m', []) /\
    mNavMeshMap m' !! k = Some (entry_of m k) /\
    (forall k' e, mNavMeshMap m !! k' = Some e -> mNavMeshMap m' !! k' = Some e) /\
    mNavMeshVersionXXX m' = mNavMeshVersionXXX m.
Proof.
  unfold getNavMeshForRegionUUID, entry_of, bind, gets, modify, ret. simpl.
  destruct (mNavMeshMap m !! k) as [e|] eqn:E; simpl; eexists; (split; [reflexivity|]); simpl.
  - rewrite E. auto.
  - rewrite lookup_insert_eq. repeat split; auto.
    intros k' e He. rewrite lookup_insert_ne; [exact He|congruence].
Qed.

Lemma requestGetNavMeshForRegion_out (pRegion : option LLViewerRegion) (m : LLPathfindingManager) :
  let k := regionUUID_of pRegion in
  let e := entry_of m k in
  let v := mNavMeshVersionXXX m in
  let url := getRetrieveNavMeshURLForRegion pRegion in
  (requestGetNavMeshForRegion pRegion m).2 =
    if hasNavMeshVersion e v then (handleRefresh e).2
    else
      match pRegion with
      | None => (handleNavMeshNotEnabled e).2
      | Some _ =>
          if string_empty url then (handleNavMeshNotEnabled e).2
          else (handleNavMeshStart v e).2 ++
               [HTTPClient_post url LLSD_new (NavMeshResponder url v k)]
      end.
Proof.
  intros k e v url. unfold requestGetNavMeshForRegion, getNavMeshForRegion. fold k.
  destruct (getNavMeshForRegionUUID_spec k m) as (m' & Hget & Hk & _ & Hv).
  unfold bind at 1. rewrite Hget.
  unfold bind, gets, NavMesh_read, ret. simpl. rewrite Hk, Hv. simpl. fold e v.
  destruct (hasNavMeshVersion e v).
  - unfold NavMesh_call. rewrite Hk. reflexivity.
  - destruct pRegion as [region|].
    + fold url. destruct (string_empty url).
      * unfold NavMesh_call. rewrite Hk. reflexivity.
      * unfold NavMesh_call, emit. rewrite Hk. reflexivity.
    + unfold NavMesh_call. rewrite Hk. reflexivity.
Qed.

(** C5: a request for a region whose cache entry has the navmesh of the
    current version calls the entry's [handleRefresh] and hands nothing to the
    HTTP client; the only request ever sent is one POST, and it is sent
    exactly when the entry is stale, the region is not null and the region has
    the retrieve-navmesh capability. *)
Theorem navmesh_request_refresh_or_post (pRegion : option LLViewerRegion)
    (m : LLPathfindingManager) :
  let k := regionUUID_of pRegion in
  let e := entry_of m k in
  let v := mNavMeshVersionXXX m in
  let url := getRetrieveNavMeshURLForRegion pRegion in
  let out := (requestGetNavMeshForRegion pRegion m).2 in
  (hasNavMeshVersion e v = true ->
   out = (handleRefresh e).2 /\ forall eff, eff ∈ out -> is_http eff = false) /\
  (forall eff, eff ∈ out -> is_http eff = true ->
   hasNavMeshVersion e v = false /\ pRegion <> None /\ string_empty url = false /\
   eff = HTTPClient_post url LLSD_new (NavMeshResponder url v k)) /\
  (hasNavMeshVersion e v = false -> pRegion <> None -> string_empty url = false ->
   HTTPClient_post url LLSD_new (NavMeshResponder url v k) ∈ out).
Proof.
  intros k e v url out.
  pose proof (requestGetNavMeshForRegion_out pRegion m) as Hout.
  cbv zeta in Hout. fold k e v url out in Hout.
  split; [|split].
  - intros Hfresh. rewrite Hout, Hfresh. split; [reflexivity|].
    simpl. intros eff Hin. apply list_elem_of_singleton in Hin. subst eff. reflexivity.
  - intros eff Hin Hhttp. rewrite Hout in Hin.
    destruct (hasNavMeshVersion e v), pRegion as [region|], (string_empty url);
      simpl in Hin; set_unfold in Hin; destruct_or?; subst eff;
      try discriminate Hhttp; try contradiction; repeat split; auto; discriminate.
  - intros Hstale Hregion Hurl. rewrite Hout, Hstale.
    destruct pRegion as [region|]; [|congruence].
    rewrite Hurl. simpl. set_solver.
Qed.


Lemma U32_incr_cases (v : Z) :
  0 <= v < U32_modulus ->
  0 <= U32_incr v < U32_modulus /\
  (v < U32_max -> U32_incr v = v + 1) /\
  (v = U32_max -> U32_incr v = 0).
Proof.
  unfold U32_incr, U32_max, U32_modulus. intros Hv. repeat split.
  - apply Z.mod_pos_bound. lia.
  - apply Z.mod_pos_bound. lia.
  - intros Hlt. apply Z.mod_small. lia.
  - intros ->. reflexivity.
Qed.

Lemma handleNavMeshUpdate_spec (k : LLUUID) (pNavMeshVersion : Z) (m : LLPathfindingManager) :
  exists m',
    handleNavMeshUpdate k pNavMeshVersion m = (tt, m', []) /\
    mNavMeshVersionXXX m' = U32_incr (mNavMeshVersionXXX m) /\
    forall k' e, mNavMeshMap m !! k' = Some e -> mNavMeshMap m' !! k' = Some e.
Proof.
  unfold handleNavMeshUpdate.
  destruct (getNavMeshForRegionUUID_spec k m) as (m1 & Hget & Hk & Hkeep & Hv).
  unfold bind at 1. rewrite Hget.
  unfold bind, gets, modify, NavMesh_call, handleNavMeshNewVersion. simpl.
  rewrite Hk. simpl. eexists. split; [reflexivity|]. simpl. split; [congruence|].
  intros k' e He. apply Hkeep in He.
  destruct (decide (k' = k)) as [->|Hne].
  - rewrite lookup_insert_eq. congruence.
  - rewrite lookup_insert_ne; [exact He|congruence].
Qed.

(** C6 (amended): [handleNavMeshUpdate] replaces the version counter by its
    successor modulo 2^32, which differs from the previous value and is
    greater unless the counter was 2^32-1 (it wraps to 0); every entry of
    another region stays as it was, and no entry that held the previous
    version has the navmesh of the new version: the freshness check of the
    next request fails for every region, not only the notified one. *)
Theorem navmesh_update_bumps_version (k : LLUUID) (pNavMeshVersion : Z)
    (m : LLPathfindingManager) :
  0 <= mNavMeshVersionXXX m < U32_modulus ->
  let old := mNavMeshVersionXXX m in
  let m' := (handleNavMeshUpdate k pNavMeshVersion m).1.2 in
  mNavMeshVersionXXX m' = U32_incr old /\
  0 <= mNavMeshVersionXXX m' < U32_modulus /\
  mNavMeshVersionXXX m' <> old /\
  (old < U32_max -> mNavMeshVersionXXX m' = old + 1 /\ old < mNavMeshVersionXXX m') /\
  (old = U32_max -> mNavMeshVersionXXX m' = 0) /\
  (forall k' e,
     mNavMeshMap m !! k' = Some e ->
     exists e',
       mNavMeshMap m' !! k' = Some e' /\
       (k' <> k -> e' = e) /\
       (mNavMeshVersion e = old -> hasNavMeshVersion e' (mNavMeshVersionXXX m') = false)).
Proof.
  intros Hrange old m'.
  destruct (handleNavMeshUpdate_spec k pNavMeshVersion m) as (m1 & Heq & Hv & Hkeep).
  subst m'. rewrite Heq. simpl. fold old in Hv, Hrange.
  destruct (U32_incr_cases old Hrange) as (Hr & Hlt & Hmax).
  assert (Hne : mNavMeshVersionXXX m1 <> old).
  { rewrite Hv. destruct (decide (old < U32_max)) as [Hl|Hl].
    - rewrite (Hlt Hl). lia.
    - assert (old = U32_max) as Hm by (unfold U32_max in *; lia).
      rewrite (Hmax Hm), Hm. discriminate. }
  split; [exact Hv|]. split; [rewrite Hv; exact Hr|]. split; [exact Hne|].
  split; [|split].
  - intros Hl. rewrite Hv, (Hlt Hl). lia.
  - intros Hm. rewrite Hv. exact (Hmax Hm).
  - intros k' e He. exists e. split; [exact (Hkeep k' e He)|]. split; [reflexivity|].
    intros Hold. unfold hasNavMeshVersion.
    destruct (mNavMeshRequestStatus e); try reflexivity.
    apply Z.eqb_neq. congruence.
Qed.

End NavMeshProofs.

(** * The properties on written-out inputs *)



(** C2, on the object result followed by the terrain error: the callback is
    called once with Error, the terrain state being ReceivedError; and on two
    good replies: it is called once with Completed. *)
Lemma linksets_callback_status_witness :
  answered_once true true sample_replies = true /\
  answered_once true true sample_replies_good = true /\
  (exists r linksets,
     deliver_all sample_replies (LinksetsResponder_new 7%nat true true) [] =
       Some (r, [LinksetsCallback 7%nat kLinksetsRequestError linksets]) /\
     mTerrainMessagingState r = kReceivedError) /\
  (exists r linksets,
     deliver_all sample_replies_good (LinksetsResponder_new 7%nat true true) [] =
       Some (r, [LinksetsCallback 7%nat kLinksetsRequestCompleted linksets]) /\
     mObjectMessagingState r = kReceivedGood /\ mTerrainMessagingState r = kReceivedGood).
Proof.
  split; [reflexivity|]. split; [reflexivity|]. split.
  - destruct (linksets_callback_status (C:=Sim) 7%nat true true sample_replies eq_refl)
      as (r & out & Hrun & (status & linksets & Hout & Hiff & Herror) & _).
    assert (Hter : mTerrainMessagingState r = kReceivedError).
    { pose proof Hrun as Hrun'. vm_compute in Hrun'.
      injection Hrun' as Hr _. rewrite <- Hr. reflexivity. }
    exists r, linksets. split; [|exact Hter].
    rewrite Hrun, Hout. f_equal. f_equal. f_equal. f_equal.
    apply Herror. intros Hcompleted.
    destruct (proj1 Hiff Hcompleted) as [_ [Hgood | Hnone]];
      rewrite Hter in *; discriminate.
  - destruct (linksets_callback_status (C:=Sim) 7%nat true true sample_replies_good eq_refl)
      as (r & out & Hrun & (status & linksets & Hout & Hiff & _) & _).
    assert (Hstates : mObjectMessagingState r = kReceivedGood /\
                      mTerrainMessagingState r = kReceivedGood).
    { pose proof Hrun as Hrun'. vm_compute in Hrun'.
      injection Hrun' as Hr _. rewrite <- Hr. split; reflexivity. }
    exists r, linksets. split; [|exact Hstates].
    rewrite Hrun, Hout. f_equal. f_equal. f_equal. f_equal.
    apply (proj2 Hiff). destruct Hstates as [Ho Ht]. split; left; assumption.
Defined.

(** C3, on the scenario of the specification: the object request returns
    obj1, the terrain request fails; and on two good replies. *)
Lemma linksets_callback_list_witness :
  (exists r out,
     deliver_all sample_replies (LinksetsResponder_new 7%nat true true) [] = Some (r, out) /\
     callbacks out =
       [LinksetsCallback 7%nat kLinksetsRequestError
          (Some [("obj1", {| sim_uuid := "obj1";
                             sim_properties := SimMap [("linkset_use", SimString "walkable")] |})])]) /\
  (exists r out status,
     deliver_all sample_replies_good (LinksetsResponder_new 7%nat true true) [] = Some (r, out) /\
     callbacks out =
       [LinksetsCallback 7%nat status
          (Some [("obj1", {| sim_uuid := "obj1";
                             sim_properties := SimMap [("linkset_use", SimString "walkable")] |});
                 (sim_terrain_uuid, {| sim_uuid := sim_terrain_uuid;
                                       sim_properties := sample_terrain |})])]).
Proof.
  split.
  - apply (proj1 (linksets_callback_list (C:=Sim) 7%nat) sample_replies "http://sim/object"
             (SimMap [("obj1", SimMap [("linkset_use", SimString "walkable")])])
             "http://sim/terrain" 500 "Internal Server Error").
    + reflexivity.
    + apply list_elem_of_here.
    + apply list_elem_of_further, list_elem_of_here.
  - apply (proj2 (linksets_callback_list (C:=Sim) 7%nat) true sample_replies_good
             "http://sim/terrain" sample_terrain).
    + reflexivity.
    + apply list_elem_of_here.
Defined.

(** C4, in a region with every capability: the request for Unfrozen posts,
    the matching reply sets Unfrozen and [getAgentState] returns it; a reply
    for Frozen to the same request sets Error. *)
Lemma set_agent_state_reply_witness :
  isValidAgentState kAgentStateUnfrozen = true /\
  string_empty (getAgentStateURLForCurrentRegion sample_agent) = false /\
  (getAgentState sample_agent
     (handleAgentStateResult (C:=Sim) sample_unfrozen_reply kAgentStateUnfrozen
        LLPathfindingManager_new).1.2).1.1 = kAgentStateUnfrozen /\
  mAgentState
    (handleAgentStateResult (C:=Sim) (SimMap [(ALTER_NAVMESH_OBJECTS_FIELD, SimBoolean false)])
       kAgentStateUnfrozen LLPathfindingManager_new).1.2 = kAgentStateError.
Proof.
  split; [reflexivity|]. split; [reflexivity|]. split.
  - destruct (set_agent_state_reply (C:=Sim) sample_agent sample_agent kAgentStateUnfrozen
                sample_unfrozen_reply LLPathfindingManager_new LLPathfindingManager_new
                eq_refl eq_refl) as (_ & Hmatch & _).
    destruct (Hmatch eq_refl) as [_ Hget].
    exact (f_equal (fun x => x.1.1) (Hget eq_refl)).
  - destruct (set_agent_state_reply (C:=Sim) sample_agent sample_agent kAgentStateUnfrozen
                (SimMap [(ALTER_NAVMESH_OBJECTS_FIELD, SimBoolean false)])
                LLPathfindingManager_new LLPathfindingManager_new
                eq_refl eq_refl) as (_ & _ & Hmismatch).
    apply Hmismatch. discriminate.
Defined.

(** C4 as stated fails where the region has the agent-state capability but
    not the navmesh capability: the request is posted, the reply matches and
    the agent state becomes Unfrozen, but [getAgentState] then forces
    NotEnabled and returns it. *)
Lemma matching_reply_then_not_enabled :
  isValidAgentState kAgentStateUnfrozen = true /\
  (requestSetAgentState (C:=Sim) sample_agent_no_navmesh kAgentStateUnfrozen
     LLPathfindingManager_new).2 =
    [HTTPClient_post "http://sim/agent"
       (SimMap [(ALTER_NAVMESH_OBJECTS_FIELD, SimBoolean true);
                (DEPRECATED_ALTER_NAVMESH_OBJECTS_FIELD, SimBoolean true)])
       (AgentStateResponder "http://sim/agent" kAgentStateUnfrozen)] /\
  decodeAgentState (C:=Sim) sample_unfrozen_reply = kAgentStateUnfrozen /\
  mAgentState
    (handleAgentStateResult (C:=Sim) sample_unfrozen_reply kAgentStateUnfrozen
       LLPathfindingManager_new).1.2 = kAgentStateUnfrozen /\
  (getAgentState sample_agent_no_navmesh
     (handleAgentStateResult (C:=Sim) sample_unfrozen_reply kAgentStateUnfrozen
        LLPathfindingManager_new).1.2).1.1 = kAgentStateNotEnabled.
Proof. repeat split. Qed.

(** C5, on a cache that holds the navmesh of version 3 for region 1: while
    the counter is 3 a request refreshes the listener and sends nothing; once
    the counter moved to 4 the request posts. *)
Lemma navmesh_request_refresh_or_post_witness :
  (requestGetNavMeshForRegion (Some sample_region) (sample_manager 3)).2 =
    [NavMeshSignal [5%nat] kNavMeshRequestCompleted 1%N (Some (SimString "navmesh"))] /\
  HTTPClient_post "http://sim/navmesh" SimUndefined (NavMeshResponder "http://sim/navmesh" 4 1%N)
    ∈ (requestGetNavMeshForRegion (Some sample_region)
         (handleNavMeshUpdate 1%N 0 (sample_manager 3)).1.2).2.
Proof.
  split.
  - apply (proj1 (navmesh_request_refresh_or_post (C:=Sim) (Some sample_region) (sample_manager 3))).
    reflexivity.
  - apply (proj2 (proj2 (navmesh_request_refresh_or_post (C:=Sim) (Some sample_region)
                           (handleNavMeshUpdate 1%N 0 (sample_manager 3)).1.2))).
    + reflexivity.
    + discriminate.
    + reflexivity.
Defined.

(** C6, on a counter at 3 and a notification for region 2: the counter
    becomes 4 and the entry of region 1, which holds version 3, no longer has
    the current navmesh. *)
Lemma navmesh_update_bumps_version_witness :
  0 <= mNavMeshVersionXXX (sample_manager 3) < U32_modulus /\
  mNavMeshVersionXXX (handleNavMeshUpdate 2%N 0 (sample_manager 3)).1.2 = 4 /\
  mNavMeshMap (handleNavMeshUpdate 2%N 0 (sample_manager 3)).1.2 !! 1%N =
    Some (sample_entry 1%N 3) /\
  hasNavMeshVersion (sample_entry 1%N 3)
    (mNavMeshVersionXXX (handleNavMeshUpdate 2%N 0 (sample_manager 3)).1.2) = false.
Proof.
  assert (Hrange : 0 <= mNavMeshVersionXXX (sample_manager 3) < U32_modulus)
    by (split; [discriminate|reflexivity]).
  split; [exact Hrange|].
  destruct (navmesh_update_bumps_version (C:=Sim) 2%N 0 (sample_manager 3) Hrange)
    as (_ & _ & _ & Hlt & _ & Hentries).
  split; [exact (proj1 (Hlt eq_refl))|].
  destruct (Hentries 1%N (sample_entry 1%N 3) eq_refl) as (e' & Hkept & Hsame & Hstale).
  rewrite (Hsame ltac:(discriminate)) in Hkept, Hstale.
  split; [exact Hkept|exact (Hstale eq_refl)].
Defined.

(** C6 as stated fails at the end of the counter's range: from 2^32-1 the
    increment wraps to 0, which is not greater. And after a notification the
    entries are as before, so an entry that holds the previous version still
    answers [hasNavMeshVersion] with true for that previous value; what it
    fails is the check against the new counter value. *)
Lemma navmesh_version_wraps_to_zero :
  mNavMeshVersionXXX (sample_manager U32_max) = 4294967295 /\
  mNavMeshVersionXXX (handleNavMeshUpdate 2%N 0 (sample_manager U32_max)).1.2 = 0 /\
  mNavMeshVersionXXX (handleNavMeshUpdate 2%N 0 (sample_manager 3)).1.2 = 4 /\
  mNavMeshMap (handleNavMeshUpdate 2%N 0 (sample_manager 3)).1.2 !! 1%N =
    Some (sample_entry 1%N 3) /\
  hasNavMeshVersion (sample_entry 1%N 3) 3 = true /\
  hasNavMeshVersion (sample_entry 1%N 3) 4 = false.
Proof. repeat split. Qed.

(** C7 as stated fails for [requestSetLinksets] with nothing to send: in a
    region with both capabilities and an empty list of linksets the status
    is Completed, no request is sent and no responder is built. *)
Lemma set_linksets_nothing_to_send :
  string_empty (getObjectLinksetsURLForCurrentRegion sample_agent) = false /\
  string_empty (getTerrainLinksetsURLForCurrentRegion sample_agent) = false /\
  requestSetLinksets (C:=Sim) sample_agent [] 0%nat 0 0 0 0 7%nat =
    {| request_status := kLinksetsRequestCompleted;
       request_responder := None;
       request_sent := [] |}.
Proof. repeat split. Qed.

(** C8, in a region with every capability and the state still Unknown:
    one GET is sent and Unknown is returned. *)
Lemma get_agent_state_cases_witness :
  getAgentState (C:=Sim) sample_agent LLPathfindingManager_new =
    (kAgentStateUnknown, LLPathfindingManager_new,
     [HTTPClient_get "http://sim/agent"
        (AgentStateResponder "http://sim/agent" kAgentStateUnknown)]).
Proof.
  apply (proj1 (proj2 (get_agent_state_cases (C:=Sim) sample_agent LLPathfindingManager_new)));
    reflexivity.
Defined.

(** C8 as stated fails where pathfinding is enabled but the region lacks
    the agent-state capability: with the state Unknown, [getAgentState] sends
    no request, forces NotEnabled and returns NotEnabled. *)
Lemma get_agent_state_without_capability :
  isPathfindingEnabledForCurrentRegion sample_agent_no_agent_state = true /\
  mAgentState (C:=Sim) LLPathfindingManager_new = kAgentStateUnknown /\
  isValidAgentState kAgentStateUnknown = false /\
  (getAgentState (C:=Sim) sample_agent_no_agent_state LLPathfindingManager_new).1.1 =
    kAgentStateNotEnabled /\
  (getAgentState (C:=Sim) sample_agent_no_agent_state LLPathfindingManager_new).2 =
    [AgentStateSignal [] kAgentStateNotEnabled].
Proof. repeat split. Qed.

(** C10, in a region with the object-linksets capability and without the
    terrain one, for an agent who may not view terrain properties. *)
Lemma get_linksets_needs_both_capabilities_witness :
  isAllowViewTerrainProperties sample_agent_no_terrain = false /\
  string_empty (getObjectLinksetsURLForCurrentRegion sample_agent_no_terrain) = false /\
  string_empty (getTerrainLinksetsURLForCurrentRegion sample_agent_no_terrain) = true /\
  requestGetLinksets (C:=Sim) sample_agent_no_terrain 7%nat =
    {| request_status := kLinksetsRequestNotEnabled;
       request_responder := None;
       request_sent := [] |}.
Proof.
  split; [reflexivity|]. split; [reflexivity|]. split; [reflexivity|].
  exact (proj1 (get_linksets_needs_both_capabilities (C:=Sim) sample_agent_no_terrain 7%nat
                  (or_intror eq_refl))).
Defined.

(** * Further properties of the responder and of the manager *)

Section ResponderFacts.
Context `{C : Collaborators}.

Lemma callbacks_app (out1 out2 : list Effect) :
  callbacks (out1 ++ out2) = callbacks out1 ++ callbacks out2.
Proof. unfold callbacks. apply filter_app. Qed.

(** [sendCallback] follows no null pointer on a responder whose pointers
    are set for the good replies. *)
Lemma sendCallback_total (r : LinksetsResponder) :
  (mObjectMessagingState r = kReceivedGood -> is_Some (mObjectLinksetListPtr r)) ->
  (mTerrainMessagingState r = kReceivedGood -> is_Some (mTerrainLinksetPtr r)) ->
  exists r' status linksets,
    sendCallback r = Some (r', [LinksetsCallback (mLinksetsCallback r) status (Some linksets)]) /\
    mLinksetsCallback r' = mLinksetsCallback r /\
    mObjectMessagingState r' = mObjectMessagingState r /\
    mTerrainMessagingState r' = mTerrainMessagingState r /\
    mTerrainLinksetPtr r' = mTerrainLinksetPtr r /\
    is_Some (mObjectLinksetListPtr r').
Proof.
  destruct r as [cb so st lo lt]. simpl. intros Ho Ht.
  unfold sendCallback. simpl.
  destruct (decide (so = kReceivedGood)) as [->|Hso];
    destruct (decide (st = kReceivedGood)) as [->|Hst];
    try destruct (Ho eq_refl) as [l ->]; try destruct (Ht eq_refl) as [t ->];
    repeat (case_bool_decide; try tauto; simpl);
    do 3 eexists; (split; [reflexivity|]); simpl; eauto 10.
Qed.


Ltac responder_step Hcb Ho Ht Hw Hall :=
  let Hother := fresh "Hother" in
  case_bool_decide as Hother; simpl in Hother;
  [ match goal with
    | |- exists r' out', sendCallback ?r1 = _ /\ _ =>
        let Hs := fresh "Hs" in
        destruct (sendCallback_total r1) as (r' & status & linksets & Hs & Hcb' & Hso & Hst & Hlt & Hlo);
        [ simpl; intros; try discriminate; eauto
        | simpl; intros; try discriminate; eauto | ];
        do 2 eexists; split; [exact Hs|];
        simpl in *;
        repeat split;
        [ congruence
        | intros _; exact Hlo
        | rewrite Hlt, Hst; simpl; intros; try discriminate; eauto
        | rewrite Hso; simpl; congruence
        | rewrite Hst; simpl; congruence
        | apply Forall_app; split; [exact Hall|];
          apply Forall_singleton; rewrite Hcb; eauto ]
    end
  | do 2 eexists; split; [reflexivity|];
    rewrite app_nil_r; simpl;
    repeat split; simpl; eauto; try discriminate;
    match goal with
    | H : callbacks _ <> [] |- _ => destruct (Hw H); tauto
    end ].

(** Each handler keeps the responder in order, whatever its state: it
    follows no null pointer, and it calls back only when neither
    sub-operation is waiting. *)
Lemma deliver_keeps_ok (cb : linksets_callback_t) (reply : LinksetsReply)
    (r : LinksetsResponder) (out : list Effect) :
  responder_ok cb r out ->
  exists r' out', deliver reply r = Some (r', out') /\ responder_ok cb r' (out ++ out').
Proof.
  intros (Hcb & Ho & Ht & Hw & Hall).
  destruct reply; simpl;
    unfold handleObjectLinksetsResult, handleObjectLinksetsError,
      handleTerrainLinksetsResult, handleTerrainLinksetsError; cbv zeta.
  - responder_step Hcb Ho Ht Hw Hall.
  - responder_step Hcb Ho Ht Hw Hall.
  - responder_step Hcb Ho Ht Hw Hall.
  - responder_step Hcb Ho Ht Hw Hall.
Qed.


Lemma deliver_all_keeps_ok (cb : linksets_callback_t) (replies : list LinksetsReply)
    (r : LinksetsResponder) (out : list Effect) :
  responder_ok cb r out ->
  exists r' out', deliver_all replies r out = Some (r', out') /\ responder_ok cb r' out'.
Proof.
  revert r out. induction replies as [|reply replies IH]; intros r out Hok.
  - exists r, out. split; [reflexivity|exact Hok].
  - destruct (deliver_keeps_ok cb reply r out Hok) as (r1 & out1 & Hstep & Hok1).
    simpl. rewrite Hstep. apply IH. exact Hok1.
Qed.

Lemma responder_new_ok (cb : linksets_callback_t) (o t : bool) :
  responder_ok cb (LinksetsResponder_new cb o t) [].
Proof.
  unfold responder_ok. simpl.
  split; [reflexivity|]. split; [destruct o; discriminate|].
  split; [destruct t; discriminate|]. split; [intros Hcalled; contradiction|constructor].
Qed.

(** X1: whatever replies reach a responder, in whatever number and order
    (also repeated ones, or ones for a sub-operation that was not requested),
    no handler follows a null pointer, the joined callback is not called
    while a sub-operation is waiting, and every call goes to the callback the
    responder was built with and hands over a list. *)
Theorem responder_safe_on_any_replies (cb : linksets_callback_t) (o t : bool)
    (replies : list LinksetsReply) :
  exists r out,
    deliver_all replies (LinksetsResponder_new cb o t) [] = Some (r, out) /\
    (callbacks out <> [] ->
     mObjectMessagingState r <> kWaiting /\ mTerrainMessagingState r <> kWaiting) /\
    Forall (fun e => exists status linksets, e = LinksetsCallback cb status (Some linksets)) out.
Proof.
  destruct (deliver_all_keeps_ok cb replies _ _ (responder_new_ok cb o t))
    as (r & out & Hrun & _ & _ & _ & Hw & Hall).
  exists r, out. auto.
Qed.

(** X2: the joined result does not depend on which reply comes first: the
    object reply followed by the terrain reply leaves the responder in the
    same state, after the same single call of the callback, as the terrain
    reply followed by the object reply. *)
Theorem reply_order_is_irrelevant (cb : linksets_callback_t) (a b : LinksetsReply) :
  is_object_reply a = true ->
  is_terrain_reply b = true ->
  deliver_all [a; b] (LinksetsResponder_new cb true true) [] =
    deliver_all [b; a] (LinksetsResponder_new cb true true) [] /\
  exists r status linksets,
    deliver_all [a; b] (LinksetsResponder_new cb true true) [] =
      Some (r, [LinksetsCallback cb status (Some linksets)]).
Proof.
  intros Ha Hb.
  destruct a; try discriminate Ha; destruct b; try discriminate Hb;
    (split; [vm_compute; reflexivity|]); do 3 eexists; vm_compute; reflexivity.
Qed.

(** X3: a get request by an agent who may not view terrain properties, in a
    region with both capabilities, sends the object GET alone and builds a
    responder that does not wait for terrain: the object reply alone decides,
    a result giving Completed with the object list and an error giving Error
    with a new, empty list. *)
Theorem get_linksets_without_terrain_permission (gAgent : LLAgent) (cb : linksets_callback_t) :
  string_empty (getObjectLinksetsURLForCurrentRegion gAgent) = false ->
  string_empty (getTerrainLinksetsURLForCurrentRegion gAgent) = false ->
  isAllowViewTerrainProperties gAgent = false ->
  let url := getObjectLinksetsURLForCurrentRegion gAgent in
  exists r,
    requestGetLinksets gAgent cb =
      {| request_status := kLinksetsRequestStarted;
         request_responder := Some r;
         request_sent := [HTTPClient_get url (ObjectLinksetsResponder url)] |} /\
    (forall url' pContent, exists r',
       deliver (ObjectResult url' pContent) r =
         Some (r', [LinksetsCallback cb kLinksetsRequestCompleted
                      (Some (LinksetList_of_LLSD pContent))])) /\
    (forall url' pStatus pReason, exists r',
       deliver (ObjectError url' pStatus pReason) r =
         Some (r', [LinksetsCallback cb kLinksetsRequestError (Some LinksetList_new)])).
Proof.
  intros Hou Htu Hallow url. subst url. unfold requestGetLinksets.
  rewrite Hou, Htu, Hallow. simpl.
  eexists. split; [reflexivity|]. split; intros; eexists; vm_compute; reflexivity.
Qed.

(** X4: a linkset request puts exactly one request in flight for every
    sub-operation its responder waits for, and none for one it does not wait
    for; when it builds no responder it sends nothing. *)
Theorem linkset_requests_match_responder (gAgent : LLAgent) (cb : linksets_callback_t)
    (pLinksetList : LLPathfindingLinksetList) (pLinksetUse : ELinksetUse) (pA pB pC pD : Z) :
  let matches (q : LinksetsRequest) :=
    match request_responder q with
    | Some r =>
        mLinksetsCallback r = cb /\
        length (filter (fun e => is_object_request e = true) (request_sent q)) =
          (if is_waiting (mObjectMessagingState r) then 1 else 0)%nat /\
        length (filter (fun e => is_terrain_request e = true) (request_sent q)) =
          (if is_waiting (mTerrainMessagingState r) then 1 else 0)%nat /\
        Forall (fun e => is_object_request e = true \/ is_terrain_request e = true)
          (request_sent q)
    | None => request_sent q = []
    end in
  matches (requestGetLinksets gAgent cb) /\
  matches (requestSetLinksets gAgent pLinksetList pLinksetUse pA pB pC pD cb).
Proof.
  intros matches. subst matches. cbv beta.
  unfold requestGetLinksets, requestSetLinksets.
  destruct (string_empty (getObjectLinksetsURLForCurrentRegion gAgent) ||
            string_empty (getTerrainLinksetsURLForCurrentRegion gAgent)); simpl.
  - split; reflexivity.
  - split.
    + destruct (isAllowViewTerrainProperties gAgent); simpl;
        (split; [reflexivity|]); (split; [reflexivity|]); (split; [reflexivity|]);
        repeat match goal with |- Forall _ _ => constructor end;
        first [left; reflexivity | right; reflexivity].
    + destruct (isUndefined (encodeObjectFields pLinksetList pLinksetUse pA pB pC pD));
        destruct (isUndefined _); simpl; try reflexivity;
        (split; [reflexivity|]); (split; [reflexivity|]); (split; [reflexivity|]);
        repeat match goal with |- Forall _ _ => constructor end;
        first [left; reflexivity | right; reflexivity].
Qed.

(** X5: an agent who may not view terrain properties causes no request with
    the terrain responder, by a get or by a set (for the set: given that a
    default-constructed [LLSD] is undefined), and the set request does not
    encode the terrain fields: its outcome is the one of the object data. *)
Theorem no_terrain_request_without_permission (gAgent : LLAgent) (cb : linksets_callback_t)
    (pLinksetList : LLPathfindingLinksetList) (pLinksetUse : ELinksetUse) (pA pB pC pD : Z) :
  isUndefined LLSD_new = true ->
  isAllowViewTerrainProperties gAgent = false ->
  let g := requestGetLinksets gAgent cb in
  let s := requestSetLinksets gAgent pLinksetList pLinksetUse pA pB pC pD cb in
  filter (fun e => is_terrain_request e = true) (request_sent g) = [] /\
  filter (fun e => is_terrain_request e = true) (request_sent s) = [] /\
  (forall r, request_responder g = Some r -> mTerrainMessagingState r = kNotRequested) /\
  (forall r, request_responder s = Some r -> mTerrainMessagingState r = kNotRequested) /\
  (request_status s = kLinksetsRequestStarted <->
   string_empty (getObjectLinksetsURLForCurrentRegion gAgent) = false /\
   string_empty (getTerrainLinksetsURLForCurrentRegion gAgent) = false /\
   isUndefined (encodeObjectFields pLinksetList pLinksetUse pA pB pC pD) = false).
Proof.
  intros Hnew Hallow g s. subst g s.
  unfold requestGetLinksets, requestSetLinksets. rewrite Hallow, Hnew.
  destruct (string_empty (getObjectLinksetsURLForCurrentRegion gAgent));
    destruct (string_empty (getTerrainLinksetsURLForCurrentRegion gAgent)); simpl;
    try (repeat split; try discriminate; intros (? & ? & ?); discriminate).
  destruct (isUndefined (encodeObjectFields pLinksetList pLinksetUse pA pB pC pD)); simpl.
  - repeat split; try discriminate; try (intros r Hr; simplify_eq; reflexivity).
    intros (_ & _ & H). discriminate H.
  - repeat split; try (intros r Hr; simplify_eq; reflexivity).
Qed.

End ResponderFacts.

Section SessionFacts.
Context `{C : Collaborators}.
Local Open Scope manager_scope.

(** ** Members a function leaves alone *)

Lemma preserves_ret {A B : Type} (f : LLPathfindingManager -> B) (a : A) : preserves f (ret a).
Proof. intros m. reflexivity. Qed.

Lemma preserves_gets {A B : Type} (f : LLPathfindingManager -> B)
    (g : LLPathfindingManager -> A) : preserves f (gets g).
Proof. intros m. reflexivity. Qed.

Lemma preserves_emit {B : Type} (f : LLPathfindingManager -> B) (e : Effect) :
  preserves f (emit e).
Proof. intros m. reflexivity. Qed.

Lemma preserves_bind {A A' B : Type} (f : LLPathfindingManager -> B) (x : M A) (k : A -> M A') :
  preserves f x -> (forall a, preserves f (k a)) -> preserves f (bind x k).
Proof.
  intros Hx Hk m. unfold bind.
  specialize (Hx m). destruct (x m) as [[a m1] out1]. simpl in Hx.
  specialize (Hk a m1). destruct (k a m1) as [[b m2] out2]. simpl in *.
  congruence.
Qed.

Lemma preserves_modify {B : Type} (f : LLPathfindingManager -> B)
    (g : LLPathfindingManager -> LLPathfindingManager) :
  (forall m, f (g m) = f m) -> preserves f (modify g).
Proof. intros Hg m. apply Hg. Qed.

Lemma version_setAgentState (s : EAgentState) : preserves mNavMeshVersionXXX (setAgentState s).
Proof. intros m. rewrite setAgentState_eq. destruct s; reflexivity. Qed.

Lemma version_getNavMeshForRegionUUID (k : LLUUID) :
  preserves mNavMeshVersionXXX (getNavMeshForRegionUUID k).
Proof.
  intros m. unfold getNavMeshForRegionUUID, bind, gets. simpl.
  destruct (mNavMeshMap m !! k); reflexivity.
Qed.

Lemma version_NavMesh_call (k : LLUUID)
    (f : LLPathfindingNavMesh -> LLPathfindingNavMesh * list Effect) :
  preserves mNavMeshVersionXXX (NavMesh_call k f).
Proof. intros m. unfold NavMesh_call. destruct (f _) as [e out]. reflexivity. Qed.

Ltac preserving :=
  repeat first
    [ progress cbv zeta
    | apply preserves_ret
    | apply preserves_gets
    | apply preserves_emit
    | apply version_setAgentState
    | apply version_getNavMeshForRegionUUID
    | apply version_NavMesh_call
    | apply preserves_modify; intros; reflexivity
    | assumption
    | apply preserves_bind; [|intros]
    | match goal with
      | |- preserves _ (if ?b then _ else _) => destruct b
      | |- preserves _ (match ?x with _ => _ end) => destruct x
      end ].

Lemma version_getAgentState (gAgent : LLAgent) :
  preserves mNavMeshVersionXXX (getAgentState gAgent).
Proof. unfold getAgentState, requestGetAgentState. preserving. Qed.

(** The counter moves with a navmesh notification and with nothing else. *)
Lemma version_step (gAgent : LLAgent) (c : Call) (m : LLPathfindingManager) :
  mNavMeshVersionXXX (step gAgent c m).1.2 =
    match c with
    | Call_handleNavMeshUpdate _ _ => U32_incr (mNavMeshVersionXXX m)
    | _ => mNavMeshVersionXXX m
    end.
Proof.
  pose proof (version_getAgentState gAgent) as Hget.
  destruct c.
  9: { simpl. destruct (handleNavMeshUpdate_spec pRegionUUID pNavMeshVersion m)
         as (m' & Heq & Hv & _). rewrite Heq. exact Hv. }
  all: revert m;
    lazymatch goal with
    | |- forall m, mNavMeshVersionXXX (?x m).1.2 = _ => change (preserves mNavMeshVersionXXX x)
    end;
    simpl;
    unfold isAllowAlterPermanent, requestSetAgentState, handleAgentStateResult,
      handleAgentStateError, registerAgentStateListener, registerNavMeshListenerForRegion,
      requestGetNavMeshForRegion, NavMeshResponder_result, NavMeshResponder_error,
      getNavMeshForRegion, NavMesh_read;
    preserving.
Qed.

Lemma U32_incr_mod (a : Z) : U32_incr (a mod U32_modulus) = (a + 1) mod U32_modulus.
Proof. unfold U32_incr. apply Zplus_mod_idemp_l. Qed.

Lemma version_run (calls : list (LLAgent * Call)) (m : LLPathfindingManager) (a : Z) :
  mNavMeshVersionXXX m = a mod U32_modulus ->
  mNavMeshVersionXXX (run calls m).1.2 = (a + Z.of_nat (count_updates calls)) mod U32_modulus.
Proof.
  revert m a. induction calls as [|[gAgent c] calls IH]; intros m a Hm.
  - simpl. rewrite Z.add_0_r. exact Hm.
  - simpl run. unfold bind.
    pose proof (version_step gAgent c m) as Hstep.
    destruct (step gAgent c m) as [[u m1] out1]. simpl in Hstep.
    specialize (IH m1). destruct (run calls m1) as [[u' m2] out2]. simpl in *.
    destruct c; simpl count_updates;
      try (apply IH; congruence).
    rewrite (IH (a + 1)).
    + f_equal. lia.
    + rewrite Hstep, Hm. apply U32_incr_mod.
Qed.

(** X6: through any session from the constructor the navmesh version counter
    is the number of navmesh notifications received so far, modulo 2^32:
    every notification moves it on by one, whatever region and version the
    notification names, and no other call touches it. *)
Theorem version_counts_notifications (calls : list (LLAgent * Call)) :
  mNavMeshVersionXXX (run calls LLPathfindingManager_new).1.2 =
    Z.of_nat (count_updates calls) mod U32_modulus /\
  0 <= mNavMeshVersionXXX (run calls LLPathfindingManager_new).1.2 < U32_modulus.
Proof.
  assert (H : mNavMeshVersionXXX (run calls LLPathfindingManager_new).1.2 =
              Z.of_nat (count_updates calls) mod U32_modulus).
  { rewrite (version_run calls LLPathfindingManager_new 0); [reflexivity|reflexivity]. }
  split; [exact H|]. rewrite H. apply Z.mod_pos_bound. reflexivity.
Qed.

(** ** The navmesh cache *)

Lemma entries_ret {A : Type} (a : A) : keeps_entries (ret a).
Proof. intros m k H. exact H. Qed.

Lemma entries_gets {A : Type} (g : LLPathfindingManager -> A) : keeps_entries (gets g).
Proof. intros m k H. exact H. Qed.

Lemma entries_emit (e : Effect) : keeps_entries (emit e).
Proof. intros m k H. exact H. Qed.

Lemma entries_bind {A B : Type} (x : M A) (f : A -> M B) :
  keeps_entries x -> (forall a, keeps_entries (f a)) -> keeps_entries (bind x f).
Proof.
  intros Hx Hf m k Hk. unfold bind.
  specialize (Hx m k Hk). destruct (x m) as [[a m1] out1]. simpl in Hx.
  specialize (Hf a m1 k Hx). destruct (f a m1) as [[b m2] out2]. exact Hf.
Qed.

Lemma entries_modify (g : LLPathfindingManager -> LLPathfindingManager) :
  (forall m, mNavMeshMap (g m) = mNavMeshMap m) -> keeps_entries (modify g).
Proof. intros Hg m k Hk. simpl. rewrite Hg. exact Hk. Qed.

Lemma entries_setAgentState (s : EAgentState) : keeps_entries (setAgentState s).
Proof. intros m k Hk. rewrite setAgentState_eq. destruct s; exact Hk. Qed.

Lemma entries_getNavMeshForRegionUUID (k : LLUUID) : keeps_entries (getNavMeshForRegionUUID k).
Proof.
  intros m k' Hk'.
  destruct (getNavMeshForRegionUUID_spec k m) as (m' & Heq & _ & Hkeep & _).
  rewrite Heq. simpl. destruct Hk' as [e He]. exists e. apply Hkeep. exact He.
Qed.

Lemma entries_NavMesh_call (k : LLUUID)
    (f : LLPathfindingNavMesh -> LLPathfindingNavMesh * list Effect) :
  keeps_entries (NavMesh_call k f).
Proof.
  intros m k' Hk'. unfold NavMesh_call. destruct (f _) as [e out]. simpl.
  apply lookup_insert_is_Some. destruct (decide (k = k')); auto.
Qed.

Ltac keeping :=
  repeat first
    [ progress cbv zeta
    | apply entries_ret
    | apply entries_gets
    | apply entries_emit
    | apply entries_setAgentState
    | apply entries_getNavMeshForRegionUUID
    | apply entries_NavMesh_call
    | apply entries_modify; intros; reflexivity
    | assumption
    | apply entries_bind; [|intros]
    | match goal with
      | |- keeps_entries (if ?b then _ else _) => destruct b
      | |- keeps_entries (match ?x with _ => _ end) => destruct x
      end ].

Lemma entries_getAgentState (gAgent : LLAgent) : keeps_entries (getAgentState gAgent).
Proof. unfold getAgentState, requestGetAgentState. keeping. Qed.

Lemma entries_step (gAgent : LLAgent) (c : Call) : keeps_entries (step gAgent c).
Proof.
  pose proof (entries_getAgentState gAgent) as Hget.
  destruct c; simpl;
    unfold isAllowAlterPermanent, requestSetAgentState, handleAgentStateResult,
      handleAgentStateError, registerAgentStateListener, registerNavMeshListenerForRegion,
      requestGetNavMeshForRegion, handleNavMeshUpdate, NavMeshResponder_result,
      NavMeshResponder_error, getNavMeshForRegion, NavMesh_read;
    keeping.
Qed.

Lemma entries_run (calls : list (LLAgent * Call)) : keeps_entries (run calls).
Proof.
  induction calls as [|[gAgent c] calls IH]; simpl.
  - apply entries_ret.
  - apply entries_bind; [apply entries_step|intros; exact IH].
Qed.

Lemma entry_after_get {A : Type} (k : LLUUID) (f : LLUUID -> M A) (m : LLPathfindingManager) :
  (forall a, keeps_entries (f a)) ->
  is_Some (mNavMeshMap (bind (getNavMeshForRegionUUID k) f m).1.2 !! k).
Proof.
  intros Hf. unfold bind.
  destruct (getNavMeshForRegionUUID_spec k m) as (m' & Heq & Hk & _).
  rewrite Heq.
  specialize (Hf k m' k (ex_intro _ _ Hk)).
  destruct (f k m') as [[b m2] out2]. exact Hf.
Qed.

(** X7: the navmesh cache never loses an entry: a region that has one keeps
    one through any session, and every request, listener registration or
    notification for a region leaves an entry for that region (for the null
    UUID when the region pointer is null). *)
Theorem navmesh_entries_are_never_removed :
  (forall calls m k,
     is_Some (mNavMeshMap m !! k) -> is_Some (mNavMeshMap (run calls m).1.2 !! k)) /\
  (forall pRegion m,
     is_Some (mNavMeshMap (requestGetNavMeshForRegion pRegion m).1.2 !! regionUUID_of pRegion)) /\
  (forall pRegion cb m,
     is_Some (mNavMeshMap (registerNavMeshListenerForRegion pRegion cb m).1.2
                !! regionUUID_of pRegion)) /\
  (forall k v m, is_Some (mNavMeshMap (handleNavMeshUpdate k v m).1.2 !! k)).
Proof.
  split; [|split; [|split]].
  - intros calls m k. apply entries_run.
  - intros pRegion m. unfold requestGetNavMeshForRegion, getNavMeshForRegion.
    apply entry_after_get. intros a. unfold NavMesh_read. keeping.
  - intros pRegion cb m. unfold registerNavMeshListenerForRegion, getNavMeshForRegion.
    apply entry_after_get. intros a. keeping.
  - intros k v m. unfold handleNavMeshUpdate.
    apply entry_after_get. intros a. keeping.
Qed.

(** ** What a session sends and signals *)

Lemma emits_ret {A : Type} (P : Effect -> Prop) (a : A) : emits P (ret a).
Proof. intros m. constructor. Qed.

Lemma emits_gets {A : Type} (P : Effect -> Prop) (g : LLPathfindingManager -> A) :
  emits P (gets g).
Proof. intros m. constructor. Qed.

Lemma emits_modify (P : Effect -> Prop) (g : LLPathfindingManager -> LLPathfindingManager) :
  emits P (modify g).
Proof. intros m. constructor. Qed.

Lemma emits_emit (P : Effect -> Prop) (e : Effect) : P e -> emits P (emit e).
Proof. intros He m. apply Forall_singleton. exact He. Qed.

Lemma emits_bind {A B : Type} (P : Effect -> Prop) (x : M A) (f : A -> M B) :
  emits P x -> (forall a, emits P (f a)) -> emits P (bind x f).
Proof.
  intros Hx Hf m. unfold bind.
  specialize (Hx m). destruct (x m) as [[a m1] out1]. simpl in Hx.
  specialize (Hf a m1). destruct (f a m1) as [[b m2] out2]. simpl in *.
  apply Forall_app. split; assumption.
Qed.

Lemma emits_setAgentState (P : Effect -> Prop) (s : EAgentState) :
  (forall slots, P (AgentStateSignal slots s)) -> emits P (setAgentState s).
Proof. intros Hs m. rewrite setAgentState_eq. apply Forall_singleton. apply Hs. Qed.

Lemma emits_getNavMeshForRegionUUID (P : Effect -> Prop) (k : LLUUID) :
  emits P (getNavMeshForRegionUUID k).
Proof.
  intros m. destruct (getNavMeshForRegionUUID_spec k m) as (m' & Heq & _).
  rewrite Heq. constructor.
Qed.

(** The entry's member functions fire the entry's own signal, nothing else. *)
Lemma emits_NavMesh_call (P : Effect -> Prop) (k : LLUUID)
    (f : LLPathfindingNavMesh -> LLPathfindingNavMesh * list Effect) :
  (forall e, Forall P (f e).2) -> emits P (NavMesh_call k f).
Proof.
  intros Hf m. unfold NavMesh_call.
  specialize (Hf (default (NavMesh_new k) (mNavMeshMap m !! k))).
  destruct (f _) as [e out]. exact Hf.
Qed.

Ltac emitting :=
  repeat first
    [ progress cbv zeta
    | apply emits_ret
    | apply emits_gets
    | apply emits_modify
    | apply emits_getNavMeshForRegionUUID
    | assumption
    | apply emits_emit; simpl; solve [auto]
    | apply emits_setAgentState; intros; simpl; solve [auto; discriminate]
    | apply emits_NavMesh_call; intros; simpl; repeat constructor
    | apply emits_bind; [|intros]
    | match goal with
      | |- emits _ (if ?b then _ else _) => destruct b eqn:?
      | |- emits _ (match ?x with _ => _ end) => destruct x eqn:?
      end ].

Lemma decodeAgentState_valid (pContent : LLSD) :
  decodeAgentState pContent = kAgentStateFrozen \/ decodeAgentState pContent = kAgentStateUnfrozen.
Proof.
  unfold decodeAgentState.
  destruct (has _ _); destruct (get_asBoolean _ _); auto.
Qed.

Lemma known_getAgentState (gAgent : LLAgent) : emits signals_known_state (getAgentState gAgent).
Proof. unfold getAgentState, requestGetAgentState. emitting. Qed.

Lemma known_handleAgentStateResult (pContent : LLSD) (requested : EAgentState) :
  emits signals_known_state (handleAgentStateResult pContent requested).
Proof.
  unfold handleAgentStateResult. cbv zeta.
  apply emits_setAgentState. intros slots. simpl.
  destruct (_ && _); [discriminate|].
  destruct (decodeAgentState_valid pContent) as [-> | ->]; discriminate.
Qed.

Lemma known_step (gAgent : LLAgent) (c : Call) : emits signals_known_state (step gAgent c).
Proof.
  pose proof (known_getAgentState gAgent) as Hget.
  destruct c; simpl; try apply known_handleAgentStateResult;
    unfold isAllowAlterPermanent, requestSetAgentState, handleAgentStateError,
      registerAgentStateListener, registerNavMeshListenerForRegion,
      requestGetNavMeshForRegion, handleNavMeshUpdate, NavMeshResponder_result,
      NavMeshResponder_error, getNavMeshForRegion, NavMesh_read;
    emitting.
Qed.

Lemma emits_run (P : Effect -> Prop) (calls : list (LLAgent * Call)) :
  (forall gAgent c, emits P (step gAgent c)) -> emits P (run calls).
Proof.
  intros Hstep. induction calls as [|[gAgent c] calls IH]; simpl.
  - apply emits_ret.
  - apply emits_bind; [apply Hstep|intros; exact IH].
Qed.

Lemma signalled_known (out : list Effect) :
  Forall signals_known_state out -> Forall (fun s => s <> kAgentStateUnknown) (signalled out).
Proof.
  induction 1 as [|e out He Hout IH]; simpl; [constructor|].
  destruct e; simpl in *; auto.
Qed.

Lemma last_state_known (d : EAgentState) (history : list EAgentState) :
  d <> kAgentStateUnknown ->
  Forall (fun s => s <> kAgentStateUnknown) history ->
  last_state d history <> kAgentStateUnknown.
Proof.
  intros Hd Hh. revert d Hd. induction Hh as [|s history Hs Hh IH]; intros d Hd; simpl.
  - exact Hd.
  - apply IH. exact Hs.
Qed.

Lemma last_state_unknown (d : EAgentState) (history : list EAgentState) :
  Forall (fun s => s <> kAgentStateUnknown) history ->
  last_state d history = kAgentStateUnknown ->
  history = [].
Proof.
  destruct history as [|s history _] using rev_ind; [reflexivity|].
  intros Hknown Hlast. exfalso.
  rewrite last_state_app in Hlast. unfold last_state at 1 in Hlast. simpl in Hlast.
  destruct (proj1 (Forall_app _ _ _) Hknown) as [_ Hs].
  apply (proj1 (Forall_singleton _ _)) in Hs. congruence.
Qed.

(** X8: the agent-state signal is never fired with Unknown: through any
    session, from any state of the manager, listeners only hear NotEnabled,
    Error, Frozen or Unfrozen, and an agent state that is not Unknown never
    becomes Unknown again. *)
Theorem listeners_never_hear_unknown (calls : list (LLAgent * Call))
    (m : LLPathfindingManager) :
  Forall (fun s => s <> kAgentStateUnknown) (signalled (run calls m).2) /\
  (mAgentState m <> kAgentStateUnknown ->
   mAgentState (run calls m).1.2 <> kAgentStateUnknown) /\
  (mAgentState (run calls m).1.2 = kAgentStateUnknown -> signalled (run calls m).2 = []).
Proof.
  assert (Hknown : Forall (fun s => s <> kAgentStateUnknown) (signalled (run calls m).2)).
  { apply signalled_known. apply (emits_run _ calls known_step). }
  destruct (tracked_run calls m) as [_ Hcur].
  split; [exact Hknown|]. split.
  - intros Hm. rewrite Hcur. apply last_state_known; assumption.
  - rewrite Hcur. apply last_state_unknown. exact Hknown.
Qed.

Lemma wellformed_getAgentState (gAgent : LLAgent) :
  emits wellformed_request (getAgentState gAgent).
Proof. unfold getAgentState, requestGetAgentState. emitting. Qed.

Lemma wellformed_step (gAgent : LLAgent) (c : Call) : emits wellformed_request (step gAgent c).
Proof.
  pose proof (wellformed_getAgentState gAgent) as Hget.
  destruct c; simpl;
    unfold isAllowAlterPermanent, requestSetAgentState, handleAgentStateResult,
      handleAgentStateError, registerAgentStateListener, registerNavMeshListenerForRegion,
      requestGetNavMeshForRegion, handleNavMeshUpdate, NavMeshResponder_result,
      NavMeshResponder_error, getNavMeshForRegion, NavMesh_read;
    emitting.
Qed.

(** The requests of a session of the entry points that change the manager
    (the two linkset functions are const and are no [Call]). *)
Lemma session_requests_are_wellformed (calls : list (LLAgent * Call))
    (m : LLPathfindingManager) :
  Forall wellformed_request (run calls m).2.
Proof. apply (emits_run _ calls wellformed_step). Qed.

(** X9: every request the manager hands to the HTTP client goes to a URL
    that is not empty and carries a responder that holds this same URL.
    Through any session of the entry points that change the manager these
    are GETs for the agent state (tagged Unknown), POSTs for the agent state
    and POSTs for the navmesh; [requestGetLinksets] sends GETs only and
    [requestSetLinksets] PUTs only, with a defined body, the object responder
    to the object-linksets URL and the terrain responder to the
    terrain-linksets URL. *)
Theorem requests_are_wellformed :
  (forall calls m, Forall wellformed_request (run calls m).2) /\
  (forall gAgent cb,
     Forall (wellformed_linkset_request gAgent false)
       (request_sent (requestGetLinksets gAgent cb))) /\
  (forall gAgent pLinksetList pLinksetUse pA pB pC pD cb,
     Forall (wellformed_linkset_request gAgent true)
       (request_sent (requestSetLinksets gAgent pLinksetList pLinksetUse pA pB pC pD cb))).
Proof.
  split; [|split].
  - intros calls m. apply (emits_run _ calls wellformed_step).
  - intros gAgent cb. unfold requestGetLinksets.
    destruct (string_empty (getObjectLinksetsURLForCurrentRegion gAgent)) eqn:Hou;
      [constructor|].
    destruct (string_empty (getTerrainLinksetsURLForCurrentRegion gAgent)) eqn:Htu;
      [constructor|].
    simpl. destruct (isAllowViewTerrainProperties gAgent);
      repeat constructor; simpl; auto.
  - intros gAgent pLinksetList pLinksetUse pA pB pC pD cb. unfold requestSetLinksets.
    destruct (string_empty (getObjectLinksetsURLForCurrentRegion gAgent)) eqn:Hou;
      [constructor|].
    destruct (string_empty (getTerrainLinksetsURLForCurrentRegion gAgent)) eqn:Htu;
      [constructor|].
    simpl.
    destruct (isUndefined (encodeObjectFields pLinksetList pLinksetUse pA pB pC pD)) eqn:Ho;
      destruct (isUndefined (if isAllowViewTerrainProperties gAgent
                             then encodeTerrainFields pLinksetList pLinksetUse pA pB pC pD
                             else LLSD_new)) eqn:Ht;
      simpl; repeat constructor; simpl; auto.
Qed.

(** ** The agent state, call by call *)

(** The manager after [setAgentState kAgentStateNotEnabled]. *)
Lemma setAgentState_NotEnabled (m : LLPathfindingManager) :
  setAgentState kAgentStateNotEnabled m =
    (tt,
     set_mLastKnownNonErrorAgentState kAgentStateNotEnabled
       (set_mAgentState kAgentStateNotEnabled m),
     [AgentStateSignal (mAgentStateSignal m) kAgentStateNotEnabled]).
Proof. rewrite setAgentState_eq. reflexivity. Qed.

Lemma getAgentState_disabled (gAgent : LLAgent) (m : LLPathfindingManager) :
  isPathfindingEnabledForCurrentRegion gAgent = false ->
  getAgentState gAgent m =
    (kAgentStateNotEnabled,
     set_mLastKnownNonErrorAgentState kAgentStateNotEnabled
       (set_mAgentState kAgentStateNotEnabled m),
     [AgentStateSignal (mAgentStateSignal m) kAgentStateNotEnabled]).
Proof. intros Hen. unfold getAgentState. rewrite Hen. reflexivity. Qed.

Lemma getAgentState_enabled (gAgent : LLAgent) (m : LLPathfindingManager) :
  isPathfindingEnabledForCurrentRegion gAgent = true ->
  getAgentState gAgent m =
    if isValidAgentState (mAgentState m) then (mAgentState m, m, [])
    else if string_empty (getAgentStateURLForCurrentRegion gAgent)
         then (kAgentStateNotEnabled,
               set_mLastKnownNonErrorAgentState kAgentStateNotEnabled
                 (set_mAgentState kAgentStateNotEnabled m),
               [AgentStateSignal (mAgentStateSignal m) kAgentStateNotEnabled])
         else (mAgentState m, m,
               [HTTPClient_get (getAgentStateURLForCurrentRegion gAgent)
                  (AgentStateResponder (getAgentStateURLForCurrentRegion gAgent)
                     kAgentStateUnknown)]).
Proof.
  intros Hen. unfold getAgentState, requestGetAgentState. rewrite Hen.
  unfold bind, gets. simpl.
  destruct (isValidAgentState (mAgentState m)); simpl; [reflexivity|].
  destruct (string_empty _); reflexivity.
Qed.

(** X10: [isAllowAlterPermanent] answers true exactly when pathfinding is
    disabled for the current region or the agent state it is called in is
    Unfrozen. In a region without pathfinding it leaves the manager alone
    (it does not force NotEnabled as [getAgentState] does); in a region with
    pathfinding it does to the manager what [getAgentState] does. *)
Theorem alter_permanent_allowed (gAgent : LLAgent) (m : LLPathfindingManager) :
  (isAllowAlterPermanent gAgent m).1.1 =
    negb (isPathfindingEnabledForCurrentRegion gAgent) ||
    bool_decide (mAgentState m = kAgentStateUnfrozen) /\
  (isPathfindingEnabledForCurrentRegion gAgent = false ->
   isAllowAlterPermanent gAgent m = (true, m, [])) /\
  (isPathfindingEnabledForCurrentRegion gAgent = true ->
   (isAllowAlterPermanent gAgent m).1.2 = (getAgentState gAgent m).1.2 /\
   (isAllowAlterPermanent gAgent m).2 = (getAgentState gAgent m).2).
Proof.
  unfold isAllowAlterPermanent.
  destruct (isPathfindingEnabledForCurrentRegion gAgent) eqn:Hen; simpl.
  - split; [|split; [discriminate|intros _]].
    + unfold bind, ret. rewrite (getAgentState_enabled gAgent m Hen).
      destruct (mAgentState m) eqn:Hs; simpl; try reflexivity;
        destruct (string_empty _); reflexivity.
    + unfold bind, ret. destruct (getAgentState gAgent m) as [[s m1] out]. simpl.
      rewrite app_nil_r. auto.
  - split; [reflexivity|]. split; [reflexivity|discriminate].
Qed.

(** X11: with no current region every capability URL is empty, so
    pathfinding counts as disabled: [getAgentState] and
    [requestSetAgentState] force NotEnabled, tell the listeners and send
    nothing, [isAllowAlterPermanent] allows, both linkset requests return
    NotEnabled without sending, only a godlike agent may view terrain
    properties, and a navmesh notification dereferences the null region. *)
Theorem without_current_region (gAgent : LLAgent) :
  getRegion gAgent = None ->
  (forall name, getCapabilityURLForCurrentRegion gAgent name = EmptyString) /\
  isPathfindingEnabledForCurrentRegion gAgent = false /\
  isAllowViewTerrainProperties gAgent = isGodlike gAgent /\
  (forall m,
     getAgentState gAgent m =
       (kAgentStateNotEnabled,
        set_mLastKnownNonErrorAgentState kAgentStateNotEnabled
          (set_mAgentState kAgentStateNotEnabled m),
        [AgentStateSignal (mAgentStateSignal m) kAgentStateNotEnabled])) /\
  (forall T m,
     requestSetAgentState gAgent T m =
       (tt,
        set_mLastKnownNonErrorAgentState kAgentStateNotEnabled
          (set_mAgentState kAgentStateNotEnabled m),
        [AgentStateSignal (mAgentStateSignal m) kAgentStateNotEnabled])) /\
  (forall m, isAllowAlterPermanent gAgent m = (true, m, [])) /\
  (forall cb,
     requestGetLinksets gAgent cb =
       {| request_status := kLinksetsRequestNotEnabled;
          request_responder := None;
          request_sent := [] |}) /\
  (forall l use a b c d cb,
     requestSetLinksets gAgent l use a b c d cb =
       {| request_status := kLinksetsRequestNotEnabled;
          request_responder := None;
          request_sent := [] |}) /\
  LLNavMeshSimStateChangeNode_post gAgent = None.
Proof.
  intros Hregion.
  assert (Hcap : forall name, getCapabilityURLForCurrentRegion gAgent name = EmptyString).
  { intros name. unfold getCapabilityURLForCurrentRegion, getCurrentRegion.
    rewrite Hregion. reflexivity. }
  assert (Hen : isPathfindingEnabledForCurrentRegion gAgent = false).
  { unfold isPathfindingEnabledForCurrentRegion, getRetrieveNavMeshURLForCurrentRegion.
    rewrite Hcap. reflexivity. }
  split; [exact Hcap|]. split; [exact Hen|]. split.
  { unfold isAllowViewTerrainProperties, getCurrentRegion. rewrite Hregion.
    apply orb_false_r. }
  split; [intros m; apply getAgentState_disabled; exact Hen|]. split.
  { intros T m. unfold requestSetAgentState, getAgentStateURLForCurrentRegion.
    rewrite Hcap. apply setAgentState_NotEnabled. }
  split.
  { intros m. unfold isAllowAlterPermanent. rewrite Hen. reflexivity. }
  split.
  { intros cb. unfold requestGetLinksets, getObjectLinksetsURLForCurrentRegion.
    rewrite Hcap. reflexivity. }
  split.
  { intros l use a b c d cb.
    unfold requestSetLinksets, getObjectLinksetsURLForCurrentRegion.
    rewrite Hcap. reflexivity. }
  unfold LLNavMeshSimStateChangeNode_post. rewrite Hregion. reflexivity.
Qed.

(** X12: the body that [requestSetAgentState] posts for a target in
    {Frozen, Unfrozen} decodes, by the manager's own decoder, to that target
    (given that an [LLSD] map returns the boolean stored under a key): a
    reply that echoes the request is accepted and sets the target. *)
Theorem set_request_body_decodes_to_target (gAgent : LLAgent) (T : EAgentState)
    (m : LLPathfindingManager) :
  LLSD_boolean_store ->
  isValidAgentState T = true ->
  string_empty (getAgentStateURLForCurrentRegion gAgent) = false ->
  let url := getAgentStateURLForCurrentRegion gAgent in
  exists body,
    requestSetAgentState gAgent T m =
      (tt, m, [HTTPClient_post url body (AgentStateResponder url T)]) /\
    decodeAgentState body = T /\
    forall m1, mAgentState (handleAgentStateResult body T m1).1.2 = T.
Proof.
  intros [Hsame Hother] HT Hurl url. subst url.
  unfold requestSetAgentState. cbv zeta. rewrite Hurl.
  eexists. split; [reflexivity|].
  assert (Hdec : decodeAgentState
                   (set_boolean
                      (set_boolean LLSD_new ALTER_NAVMESH_OBJECTS_FIELD
                         (bool_decide (T = kAgentStateUnfrozen)))
                      DEPRECATED_ALTER_NAVMESH_OBJECTS_FIELD
                      (bool_decide (T = kAgentStateUnfrozen))) = T).
  { unfold decodeAgentState.
    rewrite Hsame, Hother, Hsame by discriminate.
    apply isValidAgentState_cases in HT.
    destruct HT as [-> | ->]; destruct (has _ _); reflexivity. }
  split; [exact Hdec|].
  intros m1. unfold handleAgentStateResult. rewrite Hdec, HT, setAgentState_eq.
  apply isValidAgentState_cases in HT. destruct HT as [-> | ->]; reflexivity.
Qed.

(** X13: [getNavMeshForRegion] gets or creates: an entry that is there is
    handed out and the manager stays as it is; asking twice is asking once;
    no entry of another region is touched; and a null region pointer stands
    for the null UUID. *)
Theorem navmesh_get_or_create (k : LLUUID) (m : LLPathfindingManager) :
  (forall e, mNavMeshMap m !! k = Some e -> getNavMeshForRegionUUID k m = (k, m, [])) /\
  getNavMeshForRegionUUID k (getNavMeshForRegionUUID k m).1.2 =
    (k, (getNavMeshForRegionUUID k m).1.2, []) /\
  (forall k', k' <> k ->
     mNavMeshMap (getNavMeshForRegionUUID k m).1.2 !! k' = mNavMeshMap m !! k') /\
  (getNavMeshForRegionUUID k m).1.1 = k /\
  (getNavMeshForRegionUUID k m).2 = [] /\
  getNavMeshForRegion None m = getNavMeshForRegionUUID LLUUID_null m.
Proof.
  assert (Hthere : forall m0 e, mNavMeshMap m0 !! k = Some e ->
                               getNavMeshForRegionUUID k m0 = (k, m0, [])).
  { intros m0 e He. unfold getNavMeshForRegionUUID, bind, gets, ret. simpl.
    rewrite He. reflexivity. }
  split; [apply Hthere|].
  destruct (getNavMeshForRegionUUID_spec k m) as (m' & Heq & Hk & _).
  rewrite Heq. simpl.
  split; [exact (Hthere m' _ Hk)|]. split; [|auto].
  intros k' Hne. revert Heq.
  unfold getNavMeshForRegionUUID, bind, gets, modify, ret. simpl.
  destruct (mNavMeshMap m !! k); simpl; intros Heq; simplify_eq; [reflexivity|].
  simpl. apply lookup_insert_ne. congruence.
Qed.

(** X14: a reply to a request that was not a set (its tag is not Frozen or
    Unfrozen, as for the GET of [getAgentState]) is never taken for a
    mismatch: whatever it holds, the agent state becomes the decoded one,
    Frozen or Unfrozen, which is also the last known state, and the next
    [getAgentState] in a region with pathfinding returns it and sends
    nothing. *)
Theorem get_reply_is_accepted (gAgent : LLAgent) (pContent : LLSD) (requested : EAgentState)
    (m : LLPathfindingManager) :
  isValidAgentState requested = false ->
  let m2 := (handleAgentStateResult pContent requested m).1.2 in
  mAgentState m2 = decodeAgentState pContent /\
  isValidAgentState (mAgentState m2) = true /\
  mLastKnownNonErrorAgentState m2 = decodeAgentState pContent /\
  (handleAgentStateResult pContent requested m).2 =
    [AgentStateSignal (mAgentStateSignal m) (decodeAgentState pContent)] /\
  (isPathfindingEnabledForCurrentRegion gAgent = true ->
   getAgentState gAgent m2 = (decodeAgentState pContent, m2, [])).
Proof.
  intros Hreq m2. subst m2. unfold handleAgentStateResult. cbv zeta.
  rewrite Hreq. simpl. rewrite setAgentState_eq. simpl.
  destruct (decodeAgentState_valid pContent) as [Hd | Hd]; rewrite Hd; simpl;
    (repeat split; try reflexivity);
    intros Hen; rewrite (getAgentState_enabled _ _ Hen); reflexivity.
Qed.

(** X15: a transport error sets the agent state to Error, tells the
    listeners, and leaves the last known non-error state as it was; the next
    [getAgentState], in a region with pathfinding and the agent-state
    capability, returns Error and asks the simulator again. *)
Theorem transport_error_then_retry (gAgent : LLAgent) (pStatus : Z) (pReason pURL : string)
    (m : LLPathfindingManager) :
  isPathfindingEnabledForCurrentRegion gAgent = true ->
  string_empty (getAgentStateURLForCurrentRegion gAgent) = false ->
  let url := getAgentStateURLForCurrentRegion gAgent in
  let m1 := (handleAgentStateError pStatus pReason pURL m).1.2 in
  mAgentState m1 = kAgentStateError /\
  mLastKnownNonErrorAgentState m1 = mLastKnownNonErrorAgentState m /\
  (handleAgentStateError pStatus pReason pURL m).2 =
    [AgentStateSignal (mAgentStateSignal m) kAgentStateError] /\
  getAgentState gAgent m1 =
    (kAgentStateError, m1, [HTTPClient_get url (AgentStateResponder url kAgentStateUnknown)]).
Proof.
  intros Hen Hurl url m1. subst url m1. unfold handleAgentStateError.
  rewrite setAgentState_eq. simpl.
  repeat split.
  rewrite (getAgentState_enabled _ _ Hen). simpl. rewrite Hurl. reflexivity.
Qed.

End SessionFacts.

(** * The further properties on written-out inputs *)

Lemma sim_lookup_app {A : Type} (k : string) (l1 l2 : list (string * A)) :
  sim_lookup k (l1 ++ l2) =
    match sim_lookup k l1 with
    | Some v => Some v
    | None => sim_lookup k l2
    end.
Proof.
  induction l1 as [|[k' v] l1 IH]; simpl; [reflexivity|].
  destruct (String.eqb k k'); [reflexivity|exact IH].
Qed.

Lemma sim_lookup_filter_same {A : Type} (k : string) (l : list (string * A)) :
  sim_lookup k (List.filter (fun kv => negb (String.eqb k (fst kv))) l) = None.
Proof.
  induction l as [|[k' v] l IH]; simpl; [reflexivity|].
  destruct (String.eqb k k') eqn:Hk; simpl; [exact IH|].
  rewrite Hk. exact IH.
Qed.

Lemma sim_lookup_filter_other {A : Type} (k k' : string) (l : list (string * A)) :
  k <> k' ->
  sim_lookup k (List.filter (fun kv => negb (String.eqb k' (fst kv))) l) = sim_lookup k l.
Proof.
  intros Hne. induction l as [|[k'' v] l IH]; simpl; [reflexivity|].
  destruct (String.eqb k' k'') eqn:Hk'; simpl.
  - apply String.eqb_eq in Hk'. subst k''.
    apply String.eqb_neq in Hne. rewrite Hne. exact IH.
  - destruct (String.eqb k k''); [reflexivity|exact IH].
Qed.

(** The stand-in's maps return what was stored. *)
Lemma sim_boolean_store : LLSD_boolean_store (C:=Sim).
Proof.
  split.
  - intros d k b. simpl. unfold sim_get_asBoolean, sim_set_boolean. simpl.
    rewrite sim_lookup_app, sim_lookup_filter_same. simpl.
    rewrite String.eqb_refl. reflexivity.
  - intros d k k' b Hne. simpl. unfold sim_get_asBoolean, sim_set_boolean. simpl.
    rewrite sim_lookup_app, (sim_lookup_filter_other k k' _ Hne). simpl.
    apply String.eqb_neq in Hne. rewrite Hne.
    destruct (sim_lookup k (sim_fields d)); reflexivity.
Qed.

(** X2, on an object result and a terrain error. *)
Lemma reply_order_is_irrelevant_witness :
  deliver_all (C:=Sim) sample_replies (LinksetsResponder_new 7%nat true true) [] =
    deliver_all (C:=Sim) (reverse sample_replies) (LinksetsResponder_new 7%nat true true) [].
Proof.
  exact (proj1 (reply_order_is_irrelevant (C:=Sim) 7%nat
                  (ObjectResult "http://sim/object"
                     (SimMap [("obj1", SimMap [("linkset_use", SimString "walkable")])]))
                  (TerrainError "http://sim/terrain" 500 "Internal Server Error")
                  eq_refl eq_refl)).
Defined.

(** X3, for an agent without estate rights in a region with both
    capabilities: the object result alone completes the request. *)
Lemma get_linksets_without_terrain_permission_witness :
  isAllowViewTerrainProperties sample_agent_no_estate = false /\
  request_sent (requestGetLinksets (C:=Sim) sample_agent_no_estate 7%nat) =
    [HTTPClient_get "http://sim/object" (ObjectLinksetsResponder "http://sim/object")] /\
  exists r r',
    request_responder (requestGetLinksets (C:=Sim) sample_agent_no_estate 7%nat) = Some r /\
    deliver (ObjectResult "http://sim/object" (SimMap [("obj1", SimString "walkable")])) r =
      Some (r', [LinksetsCallback 7%nat kLinksetsRequestCompleted
                   (Some [("obj1", {| sim_uuid := "obj1";
                                      sim_properties := SimString "walkable" |})])]).
Proof.
  split; [reflexivity|].
  destruct (get_linksets_without_terrain_permission (C:=Sim) sample_agent_no_estate 7%nat
              eq_refl eq_refl eq_refl) as (r & Hreq & Hgood & _).
  split; [rewrite Hreq; reflexivity|].
  destruct (Hgood "http://sim/object" (SimMap [("obj1", SimString "walkable")])) as [r' Hr'].
  exists r, r'. split; [rewrite Hreq; reflexivity|exact Hr'].
Defined.

(** X5, for the same agent and a list that holds the terrain linkset: the
    set request sends the object PUT alone. *)
Lemma no_terrain_request_without_permission_witness :
  isUndefined (Collaborators:=Sim) LLSD_new = true /\
  isAllowViewTerrainProperties sample_agent_no_estate = false /\
  filter (fun e => is_terrain_request e = true)
    (request_sent (requestSetLinksets (C:=Sim) sample_agent_no_estate sample_linksets
                     0%nat 0 0 0 0 7%nat)) = [] /\
  request_status (requestSetLinksets (C:=Sim) sample_agent_no_estate sample_linksets
                    0%nat 0 0 0 0 7%nat) = kLinksetsRequestStarted.
Proof.
  split; [reflexivity|]. split; [reflexivity|].
  destruct (no_terrain_request_without_permission (C:=Sim) sample_agent_no_estate 7%nat
              sample_linksets 0%nat 0 0 0 0 eq_refl eq_refl)
    as (_ & Hset & _ & _ & Hstarted).
  split; [exact Hset|].
  apply (proj2 Hstarted). repeat split.
Defined.

(** X11, for an agent who is in no region. *)
Lemma without_current_region_witness :
  getRegion sample_agent_nowhere = None /\
  (getAgentState (C:=Sim) sample_agent_nowhere LLPathfindingManager_new).1.1 =
    kAgentStateNotEnabled /\
  request_status (requestGetLinksets (C:=Sim) sample_agent_nowhere 7%nat) =
    kLinksetsRequestNotEnabled /\
  LLNavMeshSimStateChangeNode_post (C:=Sim) sample_agent_nowhere = None.
Proof.
  split; [reflexivity|].
  destruct (without_current_region (C:=Sim) sample_agent_nowhere eq_refl)
    as (_ & _ & _ & Hget & _ & _ & Hlinksets & _ & Hpost).
  split; [rewrite Hget; reflexivity|].
  split; [rewrite Hlinksets; reflexivity|exact Hpost].
Defined.

(** X12, for the target Frozen in a region with every capability. *)
Lemma set_request_body_decodes_to_target_witness :
  isValidAgentState kAgentStateFrozen = true /\
  exists body,
    requestSetAgentState (C:=Sim) sample_agent kAgentStateFrozen LLPathfindingManager_new =
      (tt, LLPathfindingManager_new,
       [HTTPClient_post "http://sim/agent" body
          (AgentStateResponder "http://sim/agent" kAgentStateFrozen)]) /\
    decodeAgentState body = kAgentStateFrozen.
Proof.
  split; [reflexivity|].
  destruct (set_request_body_decodes_to_target (C:=Sim) sample_agent kAgentStateFrozen
              LLPathfindingManager_new sim_boolean_store eq_refl eq_refl)
    as (body & Hpost & Hdec & _).
  exists body. split; [exact Hpost|exact Hdec].
Defined.

(** X14, for the reply to the GET of [getAgentState]. *)
Lemma get_reply_is_accepted_witness :
  isValidAgentState kAgentStateUnknown = false /\
  getAgentState (C:=Sim) sample_agent
    (handleAgentStateResult (C:=Sim) sample_unfrozen_reply kAgentStateUnknown
       LLPathfindingManager_new).1.2 =
    (kAgentStateUnfrozen,
     (handleAgentStateResult (C:=Sim) sample_unfrozen_reply kAgentStateUnknown
        LLPathfindingManager_new).1.2, []).
Proof.
  split; [reflexivity|].
  destruct (get_reply_is_accepted (C:=Sim) sample_agent sample_unfrozen_reply
              kAgentStateUnknown LLPathfindingManager_new eq_refl)
    as (_ & _ & _ & _ & Hget).
  exact (Hget eq_refl).
Defined.

(** X15, for a failed request in a region with every capability. *)
Lemma transport_error_then_retry_witness :
  isPathfindingEnabledForCurrentRegion sample_agent = true /\
  string_empty (getAgentStateURLForCurrentRegion sample_agent) = false /\
  (getAgentState (C:=Sim) sample_agent
     (handleAgentStateError (C:=Sim) 500 "Internal Server Error" "http://sim/agent"
        LLPathfindingManager_new).1.2).2 =
    [HTTPClient_get "http://sim/agent" (AgentStateResponder "http://sim/agent" kAgentStateUnknown)].
Proof.
  split; [reflexivity|]. split; [reflexivity|].
  destruct (transport_error_then_retry (C:=Sim) sample_agent 500 "Internal Server Error"
              "http://sim/agent" LLPathfindingManager_new eq_refl eq_refl)
    as (_ & _ & _ & Hget).
  rewrite Hget. reflexivity.
Defined.
